(** * LRU::Statistics — the access-statistics ledger of the LRU cache

    A shallow embedding of [include/lru/statistics.hpp] and the properties
    of its public interface.

    - [std::size_t] is an unsigned 64-bit integer: a [Z] in [0, 2^64) whose
      arithmetic wraps around ([wrap]).  The general results use nothing of
      the width beyond the modulus being positive.
    - [std::unordered_map<Key, KeyStatistics>] is a [gmap Key KeyStatistics];
      iteration order is never observed by the class.
    - A [const] member function is a pure function of the ledger; a mutating
      member function returns the new ledger; a member function that may
      throw returns an [outcome].
    - [double] is IEEE 754 binary64 with round-to-nearest-even, as specified
      by the standard library's [SpecFloat] (53 bits of precision, exponent
      of infinity 1024). *)

From Stdlib Require Import ZArith Lia QArith Qabs Qpower.
From Stdlib Require SpecFloat.
From stdpp Require Import gmap strings list fin_maps.

Local Open Scope Z_scope.

(** ** std::size_t *)

Definition SIZE_BITS : Z := 64.
Definition SIZE_MODULUS : Z := 2 ^ SIZE_BITS.

(** Conversion of an integer value to [size_t] (unsigned wrap-around). *)
Definition wrap (z : Z) : Z := z mod SIZE_MODULUS.

Definition is_size_t (z : Z) : Prop := 0 <= z < SIZE_MODULUS.

(** ** double *)

Definition double : Set := SpecFloat.spec_float.

(** Conversion of an integer to [double], as in [static_cast<double>(n)]
    and in the usual arithmetic conversions of a mixed operation. *)
Definition double_of_integer (z : Z) : double :=
  SpecFloat.binary_normalize 53 1024 z 0 false.

Definition double_div (x y : double) : double := SpecFloat.SFdiv 53 1024 x y.

Definition double_sub (x y : double) : double := SpecFloat.SFsub 53 1024 x y.



(** ** lru/error.hpp and lru/key-statistics.hpp *)

(** Modelled from the spec: [lru/error.hpp] is not part of the sources at
    hand.  The ledger raises a single error kind, [UnmonitoredKey]. *)
Inductive Error : Set := UnmonitoredKey.

(** Result of a member function that either returns or throws. *)
Inductive outcome (A : Type) : Type :=
| Return (a : A)
| Throw (e : Error).
Arguments Return {A} a.
Arguments Throw {A} e.

Definition outcome_map {A B : Type} (f : A -> B) (o : outcome A) : outcome B :=
  match o with
  | Return a => Return (f a)
  | Throw e => Throw e
  end.

(** Modelled from the spec: [lru/key-statistics.hpp] is not part of the
    sources at hand.  Per-key counters are two non-negative integers [hits]
    and [misses], both zero on creation, with the derived value
    [accesses = hits + misses].  The ledger hands all three out as [size_t]
    ([hits_for], [misses_for], [accesses_for]), so the counters are [size_t]
    values and the derived sum is computed in [size_t]. *)
Record KeyStatistics : Set := mkKeyStatistics { hits : Z; misses : Z }.

Definition KeyStatistics_default : KeyStatistics :=
  {| hits := 0; misses := 0 |}.

Definition accesses (ks : KeyStatistics) : Z := wrap (hits ks + misses ks).

Section Statistics.
Context {Key : Type} `{Countable Key}.

(** ** std::unordered_map operations used by the class *)

Abbreviation HitMap := (gmap Key KeyStatistics).

(** [emplace] does nothing if the key is already present. *)
Definition emplace (key : Key) (v : KeyStatistics) (m : HitMap) : HitMap :=
  match m !! key with
  | Some _ => m
  | None => <[key := v]> m
  end.

Definition erase (key : Key) (m : HitMap) : HitMap := delete key m.

Definition clear (m : HitMap) : HitMap := ∅.

Definition count (key : Key) (m : HitMap) : Z :=
  match m !! key with
  | Some _ => 1
  | None => 0
  end.

Definition empty (m : HitMap) : bool := bool_decide (size m = 0%nat).

(** The standard subscript operator of the map, which default-inserts a
    missing key; the class does NOT use it (see [subscript] below). *)
Definition unordered_map_subscript (key : Key) (m : HitMap)
  : KeyStatistics * HitMap :=
  match m !! key with
  | Some v => (v, m)
  | None => (KeyStatistics_default, <[key := KeyStatistics_default]> m)
  end.

(** ** class Statistics *)

Record Statistics : Type := mkStatistics {
  _total_accesses : Z;
  _total_hits : Z;
  _hit_map : gmap Key KeyStatistics
}.

(** [Statistics() noexcept : _total_accesses(0), _total_hits(0)] *)
Definition Statistics_default : Statistics :=
  {| _total_accesses := 0; _total_hits := 0; _hit_map := ∅ |}.

Definition monitor (key : Key) (s : Statistics) : Statistics :=
  {| _total_accesses := _total_accesses s;
     _total_hits := _total_hits s;
     _hit_map := emplace key KeyStatistics_default (_hit_map s) |}.

Definition unmonitor (key : Key) (s : Statistics) : Statistics :=
  {| _total_accesses := _total_accesses s;
     _total_hits := _total_hits s;
     _hit_map := erase key (_hit_map s) |}.

Definition unmonitor_all (s : Statistics) : Statistics :=
  {| _total_accesses := _total_accesses s;
     _total_hits := _total_hits s;
     _hit_map := clear (_hit_map s) |}.

(** [Statistics(Iterator begin, Iterator end)]: the default constructor
    followed by a [monitor] call on the key at each position.  The variadic,
    range and initializer-list constructors all come down to this loop. *)
Definition Statistics_of_range (keys : list Key) : Statistics :=
  foldl (fun s key => monitor key s) Statistics_default keys.

Definition total_accesses (s : Statistics) : Z := _total_accesses s.

Definition total_hits (s : Statistics) : Z := _total_hits s.

Definition total_misses (s : Statistics) : Z :=
  wrap (total_accesses s - total_hits s).

(** [static_cast<double>(total_hits()) / total_accesses()]: the divisor is
    converted to [double] as well. *)
Definition hit_rate (s : Statistics) : double :=
  double_div (double_of_integer (total_hits s))
    (double_of_integer (total_accesses s)).

(** [1 - hit_rate()] *)
Definition miss_rate (s : Statistics) : double :=
  double_sub (double_of_integer 1) (hit_rate s).

Definition stats_for (key : Key) (s : Statistics) : outcome KeyStatistics :=
  match _hit_map s !! key with
  | None => Throw UnmonitoredKey
  | Some v => Return v
  end.

Definition hits_for (key : Key) (s : Statistics) : outcome Z :=
  outcome_map hits (stats_for key s).

Definition misses_for (key : Key) (s : Statistics) : outcome Z :=
  outcome_map misses (stats_for key s).

Definition accesses_for (key : Key) (s : Statistics) : outcome Z :=
  outcome_map accesses (stats_for key s).

(** The class's own subscript operator, a [const] member. *)
Definition subscript (key : Key) (s : Statistics) : outcome KeyStatistics :=
  stats_for key s.

Definition is_monitoring (key : Key) (s : Statistics) : bool :=
  negb (count key (_hit_map s) =? 0).

Definition number_of_monitored_keys (s : Statistics) : Z :=
  Z.of_nat (size (_hit_map s)).

(** Declared to return [size_t]: the boolean [!_hit_map.empty()] is
    converted to 1 or 0. *)
Definition is_monitoring_keys (s : Statistics) : Z :=
  if negb (empty (_hit_map s)) then 1 else 0.

(** ** Internal::StatisticsMutator *)

(** Modelled from the spec: the privileged mutator (a friend class of
    [Statistics]) is not part of the sources at hand.  Recording an outcome
    increments [total_accesses] by 1 unconditionally and [total_hits] by 1
    on a hit; if the key is currently monitored, the matching per-key
    counter is incremented by 1 as well, otherwise that step is skipped.
    The counters are the [size_t] members declared above, so each increment
    wraps. *)
Definition register_hit (key : Key) (s : Statistics) : Statistics :=
  {| _total_accesses := wrap (_total_accesses s + 1);
     _total_hits := wrap (_total_hits s + 1);
     _hit_map :=
       match _hit_map s !! key with
       | Some v =>
           <[key := {| hits := wrap (hits v + 1); misses := misses v |}]>
             (_hit_map s)
       | None => _hit_map s
       end |}.

Definition register_miss (key : Key) (s : Statistics) : Statistics :=
  {| _total_accesses := wrap (_total_accesses s + 1);
     _total_hits := _total_hits s;
     _hit_map :=
       match _hit_map s !! key with
       | Some v =>
           <[key := {| hits := hits v; misses := wrap (misses v + 1) |}]>
             (_hit_map s)
       | None => _hit_map s
       end |}.

(** ** Histories of calls on a ledger *)

Inductive call : Type :=
| Monitor (key : Key)
| Unmonitor (key : Key)
| UnmonitorAll
| RegisterHit (key : Key)
| RegisterMiss (key : Key).

Definition perform (c : call) (s : Statistics) : Statistics :=
  match c with
  | Monitor key => monitor key s
  | Unmonitor key => unmonitor key s
  | UnmonitorAll => unmonitor_all s
  | RegisterHit key => register_hit key s
  | RegisterMiss key => register_miss key s
  end.

(** Calls are performed in list order, oldest first. *)
Definition run (cs : list call) (s : Statistics) : Statistics :=
  foldl (fun s c => perform c s) s cs.

Definition is_event (c : call) : bool :=
  match c with
  | RegisterHit _ | RegisterMiss _ => true
  | _ => false
  end.

(** Number of recorded events in a history. *)
Definition events (cs : list call) : Z :=
  Z.of_nat (length (filter (fun c => is_event c = true) cs)).

(** States reachable through the public interface of the class:
    any constructor, then any administration calls. *)
Inductive reachable : Statistics -> Prop :=
| reachable_default : reachable Statistics_default
| reachable_range keys : reachable (Statistics_of_range keys)
| reachable_monitor key s : reachable s -> reachable (monitor key s)
| reachable_unmonitor key s : reachable s -> reachable (unmonitor key s)
| reachable_unmonitor_all s : reachable s -> reachable (unmonitor_all s).

(** The quantity the aggregate is compared with: the sum over all monitored
    keys of hits plus misses. *)
Definition sum_accesses (m : HitMap) : Z :=
  map_fold (fun _ v acc => hits v + misses v + acc) 0 m.

Definition monitored_accesses (s : Statistics) : Z :=
  sum_accesses (_hit_map s).

(** Accesses that a call leaves without a per-key record: an event on a
    key that is not monitored, or the counters thrown away when monitoring
    of a key ends. *)
Definition dropped (c : call) (s : Statistics) : Z :=
  match c with
  | Monitor _ => 0
  | Unmonitor key =>
      match _hit_map s !! key with
      | Some v => hits v + misses v
      | None => 0
      end
  | UnmonitorAll => monitored_accesses s
  | RegisterHit key | RegisterMiss key =>
      if is_monitoring key s then 0 else 1
  end.

Fixpoint total_dropped (cs : list call) (s : Statistics) : Z :=
  match cs with
  | [] => 0
  | c :: cs' => dropped c s + total_dropped cs' (perform c s)
  end.

(** Calls that cannot drop anything on a ledger constructed from [keys]:
    [monitor], and events on those keys.  A history made of such calls
    leaves every key of [keys] continuously monitored. *)
Definition keeps_detail (keys : list Key) (c : call) : bool :=
  match c with
  | Monitor _ => true
  | RegisterHit k | RegisterMiss k => bool_decide (k ∈ keys)
  | Unmonitor _ | UnmonitorAll => false
  end.

(** Whether a call changes the monitoring status of [key]. *)
Definition affects (key : Key) (c : call) : bool :=
  match c with
  | Monitor k | Unmonitor k => bool_decide (k = key)
  | UnmonitorAll => true
  | RegisterHit _ | RegisterMiss _ => false
  end.

(** The most recent call of a history that affects [key], if any. *)
Definition most_recent_affecting (key : Key) (cs : list call) : option call :=
  last (filter (fun c => affects key c = true) cs).

Definition starts_monitoring (c : call) : bool :=
  match c with
  | Monitor _ => true
  | _ => false
  end.

(** The members of the class are [size_t]s, and so are the per-key
    counters. *)
Definition counters_in_range (s : Statistics) : Prop :=
  is_size_t (_total_accesses s) /\ is_size_t (_total_hits s) /\
  map_Forall (fun _ v => is_size_t (hits v) /\ is_size_t (misses v))
    (_hit_map s).

(** The aggregate part of the data-model invariant, together with what the
    per-key counters can account for. *)
Definition ledger_inv (s : Statistics) : Prop :=
  counters_in_range s /\
  total_hits s <= total_accesses s /\
  monitored_accesses s <= total_accesses s.

End Statistics.

Arguments Statistics Key {_ _}.
Arguments call Key : clear implicits.

(** ** The scenario of the specification, over string keys *)

Definition scenario_calls : list (call string) :=
  [RegisterHit "a"; RegisterMiss "a"; RegisterHit "b"; RegisterMiss "c"]%string.

Definition scenario_start : Statistics string :=
  Statistics_of_range ["a"; "b"]%string.

Definition scenario : Statistics string := run scenario_calls scenario_start.

(** A history that makes the [size_t] aggregates wrap: [2^64 - 1] hits
    followed by one miss (2^64 recorded events in all). *)
Definition wrapping_calls : list (call string) :=
  replicate (Z.to_nat (SIZE_MODULUS - 1)) (RegisterHit "a"%string)
  ++ [RegisterMiss "a"%string].

(** * Properties *)

(** ** size_t arithmetic *)

Lemma SIZE_MODULUS_pos : 0 < SIZE_MODULUS.
Proof. reflexivity. Qed.

Lemma wrap_id z : is_size_t z -> wrap z = z.
Proof. intros Hz. apply Z.mod_small. exact Hz. Qed.

Lemma wrap_in_range z : is_size_t (wrap z).
Proof. apply Z.mod_pos_bound, SIZE_MODULUS_pos. Qed.

Lemma wrap_sub_le a h :
  is_size_t a -> is_size_t h -> h <= a -> wrap (a - h) = a - h.
Proof. intros [? ?] [? ?] ?. apply wrap_id. unfold is_size_t. lia. Qed.

(** ** double arithmetic on counters *)

(** Away from the subnormal range the exponent of the last place is the
    magnitude less the precision. *)
Lemma fexp_normal x : -1021 <= x -> SpecFloat.fexp 53 1024 x = x - 53.
Proof. intros Hx. unfold SpecFloat.fexp, SpecFloat.emin. lia. Qed.

(** [digits2_pos] is the number of binary digits. *)
Lemma digits2_pos_bounds p :
  2 ^ (Zpos (SpecFloat.digits2_pos p) - 1) <= Zpos p
  < 2 ^ Zpos (SpecFloat.digits2_pos p).
Proof.
  induction p as [p IH|p IH|]; simpl SpecFloat.digits2_pos.
  - rewrite Pos2Z.inj_succ, Z.pow_succ_r by lia.
    replace (Z.succ (Zpos (SpecFloat.digits2_pos p)) - 1)
      with (Z.succ (Zpos (SpecFloat.digits2_pos p) - 1)) by lia.
    rewrite Z.pow_succ_r by lia. lia.
  - rewrite Pos2Z.inj_succ, Z.pow_succ_r by lia.
    replace (Z.succ (Zpos (SpecFloat.digits2_pos p)) - 1)
      with (Z.succ (Zpos (SpecFloat.digits2_pos p) - 1)) by lia.
    rewrite Z.pow_succ_r by lia. lia.
  - simpl. lia.
Qed.

Lemma digits2_pos_unique p n :
  2 ^ (n - 1) <= Zpos p < 2 ^ n -> Zpos (SpecFloat.digits2_pos p) = n.
Proof.
  intros [Hlo Hhi]. pose proof (digits2_pos_bounds p) as [Hlo' Hhi'].
  assert (0 < n) as Hn.
  { destruct (Z_lt_le_dec 0 n) as [|Hn]; [assumption|].
    assert (2 ^ n <= 2 ^ 0) by (apply Z.pow_le_mono_r; lia).
    simpl in *. lia. }
  assert (Zpos (SpecFloat.digits2_pos p) - 1 < n).
  { apply (Z.pow_lt_mono_r_iff 2); lia. }
  assert (n - 1 < Zpos (SpecFloat.digits2_pos p)).
  { apply (Z.pow_lt_mono_r_iff 2); lia. }
  lia.
Qed.

Lemma round_nearest_even_cases m l :
  SpecFloat.round_nearest_even m l = m \/
  SpecFloat.round_nearest_even m l = m + 1.
Proof.
  destruct l as [|[| |]]; simpl; auto. destruct (Z.even m); auto.
Qed.

Lemma shr_m_record_of_loc m l :
  SpecFloat.shr_m (SpecFloat.shr_record_of_loc m l) = m.
Proof. now destruct l as [|[| |]]. Qed.

(** Shifting the rounding record right halves the mantissa. *)
Lemma shr_1_m r :
  0 <= SpecFloat.shr_m r ->
  SpecFloat.shr_m (SpecFloat.shr_1 r) = SpecFloat.shr_m r / 2.
Proof.
  destruct r as [m b c]. simpl. intros Hm.
  rewrite <- Z.div2_div.
  destruct m as [|[p|p|]|p]; try reflexivity. lia.
Qed.

Lemma iter_pos_shr_1_m n : forall r,
  0 <= SpecFloat.shr_m r ->
  SpecFloat.shr_m (SpecFloat.iter_pos SpecFloat.shr_1 n r)
  = SpecFloat.shr_m r / 2 ^ Zpos n.
Proof.
  induction n as [n IH|n IH|]; intros r Hr; simpl SpecFloat.iter_pos.
  - assert (0 < 2 ^ Zpos n) by (apply Z.pow_pos_nonneg; lia).
    assert (0 <= SpecFloat.shr_m (SpecFloat.shr_1 r)) as H1
      by (rewrite shr_1_m by exact Hr; apply Z.div_pos; lia).
    assert (0 <= SpecFloat.shr_m
                   (SpecFloat.iter_pos SpecFloat.shr_1 n (SpecFloat.shr_1 r)))
      as H2 by (rewrite (IH _ H1); apply Z.div_pos; lia).
    rewrite (IH _ H2), (IH _ H1), shr_1_m by exact Hr.
    rewrite !Z.div_div by lia. f_equal.
    replace (Zpos n~1) with (1 + Zpos n + Zpos n) by lia.
    rewrite !Z.pow_add_r by lia. change (2 ^ 1) with 2. lia.
  - assert (0 < 2 ^ Zpos n) by (apply Z.pow_pos_nonneg; lia).
    assert (0 <= SpecFloat.shr_m (SpecFloat.iter_pos SpecFloat.shr_1 n r))
      as H2 by (rewrite (IH _ Hr); apply Z.div_pos; lia).
    rewrite (IH _ H2), (IH _ Hr).
    rewrite !Z.div_div by lia. f_equal.
    replace (Zpos n~0) with (Zpos n + Zpos n) by lia.
    rewrite !Z.pow_add_r by lia. lia.
  - now apply shr_1_m.
Qed.

Lemma shr_spec r e k :
  0 <= SpecFloat.shr_m r -> 0 <= k ->
  SpecFloat.shr_m (fst (SpecFloat.shr r e k)) = SpecFloat.shr_m r / 2 ^ k /\
  snd (SpecFloat.shr r e k) = e + k.
Proof.
  intros Hr Hk. destruct k as [|k|k]; simpl.
  - rewrite Z.div_1_r. split; [reflexivity | lia].
  - split; [now apply iter_pos_shr_1_m | reflexivity].
  - lia.
Qed.

(** Rounding a mantissa of at least 53 bits whose result is a normal
    number: the mantissa is cut to 53 bits and then kept or incremented. *)
Lemma binary_round_aux_normal s mx ex lx :
  2 ^ 52 <= mx ->
  -1021 <= SpecFloat.Zdigits2 mx + ex <= 1023 ->
  exists m e c,
    SpecFloat.binary_round_aux 53 1024 s mx ex lx
    = SpecFloat.S754_finite s m e /\
    0 <= SpecFloat.Zdigits2 mx - 53 /\
    (e = ex + (SpecFloat.Zdigits2 mx - 53) /\
     Zpos m = mx / 2 ^ (SpecFloat.Zdigits2 mx - 53) + c
     \/ e = ex + (SpecFloat.Zdigits2 mx - 53) + 1 /\
        2 * Zpos m = mx / 2 ^ (SpecFloat.Zdigits2 mx - 53) + c) /\
    2 ^ 52 <= Zpos m < 2 ^ 53 /\
    (c = 0 \/ c = 1) /\
    mx / 2 ^ (SpecFloat.Zdigits2 mx - 53) + c
    = SpecFloat.round_nearest_even
        (mx / 2 ^ (SpecFloat.Zdigits2 mx - 53))
        (SpecFloat.loc_of_shr_record
           (fst (SpecFloat.shr (SpecFloat.shr_record_of_loc mx lx) ex
                   (SpecFloat.Zdigits2 mx - 53)))).
Proof.
  intros Hmx Hex.
  destruct mx as [|p|p]; try lia.
  simpl SpecFloat.Zdigits2 in *.
  pose proof (digits2_pos_bounds p) as [Hlo Hhi].
  set (d := Zpos (SpecFloat.digits2_pos p)) in *.
  assert (53 <= d) as Hd.
  { destruct (Z_lt_le_dec d 53) as [Hlt|]; [|assumption].
    assert (2 ^ d <= 2 ^ 52) by (apply Z.pow_le_mono_r; lia). lia. }
  set (k := d - 53) in *.
  assert (0 < 2 ^ k) as Hk by (apply Z.pow_pos_nonneg; lia).
  assert (2 ^ (d - 1) = 2 ^ k * 2 ^ 52) as E1
    by (rewrite <- Z.pow_add_r by lia; f_equal; lia).
  assert (2 ^ d = 2 ^ k * 2 ^ 53) as E2
    by (rewrite <- Z.pow_add_r by lia; f_equal; lia).
  assert (2 ^ 52 <= Zpos p / 2 ^ k < 2 ^ 53) as Hm'.
  { split.
    - apply Z.div_le_lower_bound; lia.
    - apply Z.div_lt_upper_bound; lia. }
  unfold SpecFloat.binary_round_aux, SpecFloat.shr_fexp.
  simpl SpecFloat.Zdigits2. fold d.
  rewrite fexp_normal by lia.
  replace (d + ex - 53 - ex) with k by lia.
  destruct (shr_spec (SpecFloat.shr_record_of_loc (Zpos p) lx) ex k)
    as [Em Ee]; [rewrite shr_m_record_of_loc; lia | lia |].
  rewrite shr_m_record_of_loc in Em.
  destruct (SpecFloat.shr (SpecFloat.shr_record_of_loc (Zpos p) lx) ex k)
    as [mrs e'] eqn:Hshr.
  simpl fst in *. simpl snd in Ee. subst e'. rewrite Em.
  set (m' := Zpos p / 2 ^ k) in *.
  set (m'' := SpecFloat.round_nearest_even m'
                (SpecFloat.loc_of_shr_record mrs)).
  assert (m'' = m' \/ m'' = m' + 1) as Hc
    by apply round_nearest_even_cases.
  assert (exists c, (c = 0 \/ c = 1) /\ m'' = m' + c) as (c & Hc01 & Ec).
  { destruct Hc as [->| ->]; [exists 0 | exists 1]; split; auto; lia. }
  destruct (Z_lt_le_dec m'' (2 ^ 53)) as [Hlt|Hge].
  - (* no carry *)
    destruct m'' as [|q|q] eqn:Eq; try lia.
    assert (Zpos (SpecFloat.digits2_pos q) = 53) as Hdq
      by (apply digits2_pos_unique; lia).
    simpl SpecFloat.Zdigits2. rewrite Hdq.
    rewrite fexp_normal by lia.
    replace (53 + (ex + k) - 53 - (ex + k)) with 0 by lia.
    simpl.
    match goal with
    | |- context [?a <=? ?b] =>
        replace (a <=? b) with true by (symmetry; apply Z.leb_le; lia)
    end.
    exists q, (ex + k), c.
    split; [reflexivity|]. split; [lia|]. split; [left; lia|].
    split; [lia|]. split; [exact Hc01 | lia].
  - (* carry: the mantissa is 2^53 *)
    assert (m'' = 2 ^ 53) as E53 by lia.
    rewrite E53.
    change (SpecFloat.Zdigits2 (2 ^ 53)) with 54.
    rewrite fexp_normal by lia.
    replace (54 + (ex + k) - 53 - (ex + k)) with 1 by lia.
    simpl.
    match goal with
    | |- context [?a <=? ?b] =>
        replace (a <=? b) with true by (symmetry; apply Z.leb_le; lia)
    end.
    exists (Z.to_pos (2 ^ 52)), (ex + k + 1), c.
    split; [reflexivity|]. split; [lia|]. split; [right; simpl; lia|].
    split; [simpl; lia|]. split; [exact Hc01 | lia].
Qed.

Lemma pos_iter_xO p n : Zpos (Pos.iter xO p n) = Zpos p * 2 ^ Zpos n.
Proof.
  induction n as [|n IH] using Pos.peano_ind.
  - simpl. lia.
  - rewrite Pos.iter_succ, Pos2Z.inj_xO, IH, Pos2Z.inj_succ.
    rewrite Z.pow_succ_r by lia. lia.
Qed.

(** A positive [size_t] converts to a positive normal [double], exactly
    when it is below [2^53]. *)
Lemma double_of_integer_finite z :
  0 < z < 2 ^ 64 ->
  exists m e,
    double_of_integer z = SpecFloat.S754_finite false m e /\
    2 ^ 52 <= Zpos m < 2 ^ 53 /\
    -52 <= e <= 12 /\
    (z < 2 ^ 53 -> e <= 0 /\ Zpos m = z * 2 ^ (- e)).
Proof.
  intros [Hpos Hlt]. destruct z as [|p|p]; try lia.
  pose proof (digits2_pos_bounds p) as [Hlo Hhi].
  unfold double_of_integer, SpecFloat.binary_normalize,
    SpecFloat.binary_round.
  set (d := Zpos (SpecFloat.digits2_pos p)) in *.
  assert (1 <= d) as Hd1 by (unfold d; lia).
  assert (d <= 64) as Hd64.
  { destruct (Z_lt_le_dec 64 d) as [Hgt|]; [|assumption].
    assert (2 ^ 64 <= 2 ^ (d - 1)) by (apply Z.pow_le_mono_r; lia). lia. }
  rewrite fexp_normal by lia.
  unfold SpecFloat.shl_align.
  destruct (d + 0 - 53 - 0) as [|n|n] eqn:Hn.
  - (* exactly 53 bits *)
    assert (d = 53) as Hd by lia.
    destruct (binary_round_aux_normal false (Zpos p) 0 SpecFloat.loc_Exact)
      as (m & e & c & -> & _ & He & Hm & Hc & Hr).
    { assert (2 ^ 52 = 2 ^ (d - 1)) as -> by (f_equal; lia). exact Hlo. }
    { simpl SpecFloat.Zdigits2. fold d. lia. }
    simpl SpecFloat.Zdigits2 in *. fold d in He, Hr. rewrite Hd in He, Hr.
    simpl in Hr. rewrite Z.div_1_r in He, Hr.
    assert (c = 0) as -> by lia.
    exists m, e. split; [reflexivity|]. split; [exact Hm|].
    assert (2 ^ d = 2 ^ 53) as Ed by (f_equal; lia).
    destruct He as [[-> Em]|[-> Em]]; [|lia].
    split; [lia|]. intros _. split; [lia|]. simpl. lia.
  - (* more than 53 bits: no alignment *)
    assert (53 < d) as Hd by lia.
    destruct (binary_round_aux_normal false (Zpos p) 0 SpecFloat.loc_Exact)
      as (m & e & c & -> & _ & He & Hm & Hc & _).
    { assert (2 ^ 52 <= 2 ^ (d - 1)) by (apply Z.pow_le_mono_r; lia). lia. }
    { simpl SpecFloat.Zdigits2. fold d. lia. }
    simpl SpecFloat.Zdigits2 in *. fold d in He.
    exists m, e. split; [reflexivity|]. split; [exact Hm|].
    split; [lia|]. intros Hsmall.
    assert (2 ^ 53 <= 2 ^ (d - 1)) by (apply Z.pow_le_mono_r; lia). lia.
  - (* fewer than 53 bits: the mantissa is shifted left *)
    assert (d < 53) as Hd by lia.
    assert (Zpos n = 53 - d) as En by lia.
    assert (0 < 2 ^ (53 - d)) as Hpow by (apply Z.pow_pos_nonneg; lia).
    assert (2 ^ 52 = 2 ^ (d - 1) * 2 ^ (53 - d)) as E52
      by (rewrite <- Z.pow_add_r by lia; f_equal; lia).
    assert (2 ^ 53 = 2 ^ d * 2 ^ (53 - d)) as E53
      by (rewrite <- Z.pow_add_r by lia; f_equal; lia).
    assert (2 ^ 52 <= Zpos (Pos.iter xO p n) < 2 ^ 53) as Hmz.
    { rewrite pos_iter_xO, En, E52, E53. split.
      - apply Z.mul_le_mono_nonneg_r; lia.
      - apply Z.mul_lt_mono_pos_r; lia. }
    assert (Zpos (SpecFloat.digits2_pos (Pos.iter xO p n)) = 53) as Hdz
      by (apply digits2_pos_unique; exact Hmz).
    destruct (binary_round_aux_normal false (Zpos (Pos.iter xO p n))
                (d + 0 - 53) SpecFloat.loc_Exact)
      as (m & e & c & -> & _ & He & Hm & Hc & Hr).
    { apply Hmz. }
    { simpl SpecFloat.Zdigits2. rewrite Hdz. lia. }
    simpl SpecFloat.Zdigits2 in *. rewrite Hdz in He, Hr.
    simpl in Hr. rewrite Z.div_1_r in He, Hr.
    assert (c = 0) as -> by lia.
    exists m, e. split; [reflexivity|]. split; [exact Hm|].
    destruct He as [[-> Em]|[-> Em]]; [|lia].
    split; [lia|]. intros _. split; [lia|].
    rewrite Em, pos_iter_xO, En. rewrite Z.add_0_r. f_equal. f_equal. lia.
Qed.

(** Arithmetic of keeping or incrementing a truncated quotient. *)
Lemma rounded_quotient_close X Y Q r c V s t :
  X = Y * Q + r -> 0 <= r < Y ->
  (c = 0 \/ c = 1) -> 0 < s <= t ->
  s * (Q / s) <= Q < s * (Q / s) + s ->
  V = (Q / s + c) * s ->
  Z.abs (V * Y - X) <= t * Y.
Proof.
  intros -> Hr Hc Hs Hq ->. set (H := Q / s) in *.
  assert (s * Y <= t * Y) by (apply Z.mul_le_mono_nonneg_r; lia).
  assert (s * H * Y <= Q * Y) by (apply Z.mul_le_mono_nonneg_r; lia).
  assert (Q * Y + Y <= (s * H + s) * Y).
  { replace (Q * Y + Y) with ((Q + 1) * Y) by ring.
    apply Z.mul_le_mono_nonneg_r; lia. }
  apply Z.abs_le. destruct Hc as [-> | ->]; split; lia.
Qed.

(** Division of two positive normal numbers with moderate exponents: the
    result is a positive normal number whose mantissa, at the scale of the
    quotient of the mantissas, is within one unit of that quotient. *)
Lemma SFdiv_normal mx ex my ey :
  2 ^ 52 <= Zpos mx < 2 ^ 53 ->
  2 ^ 52 <= Zpos my < 2 ^ 53 ->
  -400 <= ex <= 400 -> -400 <= ey <= 400 ->
  exists m e D,
    SpecFloat.SFdiv 53 1024
      (SpecFloat.S754_finite false mx ex) (SpecFloat.S754_finite false my ey)
    = SpecFloat.S754_finite false m e /\
    2 ^ 52 <= Zpos m < 2 ^ 53 /\
    e = ex - ey - 53 + D /\ 0 <= D <= 2 /\
    Z.abs (Zpos m * 2 ^ D * Zpos my - Zpos mx * 2 ^ 53) <= 2 ^ D * Zpos my.
Proof.
  intros Hmx Hmy Hex Hey.
  assert (Zpos (SpecFloat.digits2_pos mx) = 53) as Hdx
    by (apply digits2_pos_unique; exact Hmx).
  assert (Zpos (SpecFloat.digits2_pos my) = 53) as Hdy
    by (apply digits2_pos_unique; exact Hmy).
  unfold SpecFloat.SFdiv, SpecFloat.SFdiv_core_binary.
  simpl SpecFloat.Zdigits2. rewrite Hdx, Hdy.
  rewrite fexp_normal by lia.
  rewrite Z.min_l by lia.
  replace (ex - ey - (53 + ex - (53 + ey) - 53)) with 53 by lia.
  rewrite Z.shiftl_mul_pow2 by lia.
  pose proof (Z_div_mod (Zpos mx * 2 ^ 53) (Zpos my)) as Hdiv.
  destruct (Z.div_eucl (Zpos mx * 2 ^ 53) (Zpos my)) as [q r].
  destruct Hdiv as [Eq Hr]; [lia|].
  assert (2 ^ 52 <= q < 2 ^ 54) as Hq.
  { split.
    - destruct (Z_lt_le_dec q (2 ^ 52)) as [Hlt|]; [|assumption].
      assert (Zpos my * q <= Zpos my * (2 ^ 52 - 1))
        by (apply Z.mul_le_mono_nonneg_l; lia).
      assert (2 ^ 52 * 2 ^ 53 <= Zpos mx * 2 ^ 53)
        by (apply Z.mul_le_mono_nonneg_r; lia).
      lia.
    - destruct (Z_lt_le_dec q (2 ^ 54)) as [|Hge]; [assumption|].
      assert (Zpos my * 2 ^ 54 <= Zpos my * q)
        by (apply Z.mul_le_mono_nonneg_l; lia).
      assert (2 ^ 52 * 2 ^ 54 <= Zpos my * 2 ^ 54)
        by (apply Z.mul_le_mono_nonneg_r; lia).
      assert (Zpos mx * 2 ^ 53 < 2 ^ 53 * 2 ^ 53)
        by (apply Z.mul_lt_mono_pos_r; lia).
      lia. }
  destruct q as [|q|q]; try lia.
  pose proof (digits2_pos_bounds q) as [Hlo Hhi].
  set (d := Zpos (SpecFloat.digits2_pos q)) in *.
  assert (d = 53 \/ d = 54) as Hd.
  { destruct (Z_lt_le_dec d 53) as [Hlt|].
    - assert (2 ^ d <= 2 ^ 52) by (apply Z.pow_le_mono_r; lia). lia.
    - destruct (Z_lt_le_dec 54 d) as [Hgt|]; [|lia].
      assert (2 ^ 54 <= 2 ^ (d - 1)) by (apply Z.pow_le_mono_r; lia). lia. }
  destruct (binary_round_aux_normal (xorb false false) (Zpos q)
              (53 + ex - (53 + ey) - 53)
              (SpecFloat.new_location (Zpos my) r))
    as (m & e & c & -> & _ & He & Hm & Hc & _).
  { lia. }
  { simpl SpecFloat.Zdigits2. fold d. lia. }
  simpl SpecFloat.Zdigits2 in He. fold d in He.
  exists m, e, (e - (ex - ey - 53)).
  split; [reflexivity|]. split; [exact Hm|]. split; [lia|].
  assert (forall s, 0 < s ->
                    s * (Zpos q / s) <= Zpos q < s * (Zpos q / s) + s)
    as Hfloor.
  { intros s Hs. pose proof (Z_div_mod_eq_full (Zpos q) s).
    pose proof (Z.mod_pos_bound (Zpos q) s Hs). lia. }
  destruct Hd as [Hd|Hd]; rewrite Hd in He.
  - change (53 - 53) with 0 in He. change (2 ^ 0) with 1 in He.
    destruct He as [[Ee Em]|[Ee Em]].
    + replace (e - (ex - ey - 53)) with 0 by lia.
      split; [lia|].
      apply (rounded_quotient_close _ _ (Zpos q) r c _ 1);
        [lia | lia | exact Hc | simpl; lia | apply Hfloor; lia | simpl; lia].
    + replace (e - (ex - ey - 53)) with 1 by lia.
      split; [lia|].
      apply (rounded_quotient_close _ _ (Zpos q) r c _ 1);
        [lia | lia | exact Hc | simpl; lia | apply Hfloor; lia | simpl; lia].
  - change (54 - 53) with 1 in He. change (2 ^ 1) with 2 in He.
    destruct He as [[Ee Em]|[Ee Em]].
    + replace (e - (ex - ey - 53)) with 1 by lia.
      split; [lia|].
      apply (rounded_quotient_close _ _ (Zpos q) r c _ 2);
        [lia | lia | exact Hc | simpl; lia | apply Hfloor; lia | simpl; lia].
    + replace (e - (ex - ey - 53)) with 2 by lia.
      split; [lia|].
      apply (rounded_quotient_close _ _ (Zpos q) r c _ 2);
        [lia | lia | exact Hc | simpl; lia | apply Hfloor; lia | simpl; lia].
Qed.







Lemma double_div_positive h a :
  0 < h < 2 ^ 64 -> 0 < a < 2 ^ 64 ->
  exists m e,
    double_div (double_of_integer h) (double_of_integer a)
    = SpecFloat.S754_finite false m e /\
    2 ^ 52 <= Zpos m < 2 ^ 53.
Proof.
  intros Hh Ha.
  destruct (double_of_integer_finite h Hh) as (mh & eh & -> & Hmh & Heh & _).
  destruct (double_of_integer_finite a Ha) as (ma & ea & -> & Hma & Hea & _).
  destruct (SFdiv_normal mh eh ma ea) as (m & e & D & E & Hm & _); [lia..|].
  exists m, e. split; [exact E | exact Hm].
Qed.






Section Properties.
Context {Key : Type} `{Countable Key}.
Implicit Types (s : Statistics Key) (key k : Key) (v : KeyStatistics).
Implicit Types (m : gmap Key KeyStatistics) (c : call Key).
Implicit Types (cs : list (call Key)) (keys : list Key).

(** ** The map operations *)

Lemma lookup_emplace_eq key v m :
  emplace key v m !! key = Some (default v (m !! key)).
Proof.
  unfold emplace. destruct (m !! key) as [w|] eqn:E; simpl.
  - exact E.
  - apply lookup_insert_eq.
Qed.

Lemma lookup_emplace_ne key k v m :
  key <> k -> emplace key v m !! k = m !! k.
Proof.
  intros Hne. unfold emplace. destruct (m !! key); [reflexivity|].
  now apply lookup_insert_ne.
Qed.

Lemma is_monitoring_lookup key s :
  is_monitoring key s = true <-> is_Some (_hit_map s !! key).
Proof.
  unfold is_monitoring, count. destruct (_hit_map s !! key); simpl.
  - split; [eauto | reflexivity].
  - split; [discriminate | intros [? ?]; discriminate].
Qed.

Lemma not_monitoring_lookup key s :
  is_monitoring key s = false <-> _hit_map s !! key = None.
Proof.
  unfold is_monitoring, count. destruct (_hit_map s !! key); simpl.
  - split; discriminate.
  - split; reflexivity.
Qed.

Lemma stats_for_lookup key s v :
  stats_for key s = Return v <-> _hit_map s !! key = Some v.
Proof.
  unfold stats_for. destruct (_hit_map s !! key).
  - split; intros [= ->]; reflexivity.
  - split; discriminate.
Qed.

Lemma stats_for_throw key s :
  stats_for key s = Throw UnmonitoredKey <-> _hit_map s !! key = None.
Proof.
  unfold stats_for. destruct (_hit_map s !! key).
  - split; discriminate.
  - split; reflexivity.
Qed.

Lemma Statistics_eq s1 s2 :
  _total_accesses s1 = _total_accesses s2 ->
  _total_hits s1 = _total_hits s2 ->
  _hit_map s1 = _hit_map s2 -> s1 = s2.
Proof. destruct s1, s2; simpl; intros -> -> ->; reflexivity. Qed.

(** ** Sums of per-key counters *)

Lemma sum_comm (j1 j2 : Key) v1 v2 (y : Z) :
  hits v1 + misses v1 + (hits v2 + misses v2 + y) =
  hits v2 + misses v2 + (hits v1 + misses v1 + y).
Proof. lia. Qed.

Lemma sum_empty :
  sum_accesses (∅ : gmap Key KeyStatistics) = 0.
Proof. apply map_fold_empty. Qed.

Lemma sum_insert key v m :
  m !! key = None ->
  sum_accesses (<[key := v]> m)
  = hits v + misses v
    + sum_accesses m.
Proof.
  intros Hm. unfold sum_accesses.
  rewrite (map_fold_insert_L _ 0 key v m); [reflexivity| |exact Hm].
  intros j1 j2 z1 z2 y _ _ _. apply sum_comm; assumption.
Qed.

Lemma sum_delete key v m :
  m !! key = Some v ->
  sum_accesses m
  = hits v + misses v
    + sum_accesses (delete key m).
Proof.
  intros Hm. unfold sum_accesses.
  rewrite (map_fold_delete_L _ 0 key v m); [reflexivity| |exact Hm].
  intros j1 j2 z1 z2 y _ _ _. apply sum_comm; assumption.
Qed.

Lemma sum_update key v w m :
  m !! key = Some v ->
  sum_accesses (<[key := w]> m)
  = sum_accesses m
    - (hits v + misses v) + (hits w + misses w).
Proof.
  intros Hm. rewrite <- (insert_delete_eq m key w).
  rewrite sum_insert by apply lookup_delete_eq.
  rewrite (sum_delete key v m Hm). lia.
Qed.

Lemma sum_nonneg m :
  map_Forall (fun _ v => is_size_t (hits v) /\ is_size_t (misses v)) m ->
  0 <= sum_accesses m.
Proof.
  induction m as [|key v m Hm IH] using map_ind; intros Hall.
  - rewrite sum_empty. lia.
  - rewrite sum_insert by exact Hm.
    apply map_Forall_insert in Hall as [[[? ?] [? ?]] Hrest]; [|exact Hm].
    specialize (IH Hrest). lia.
Qed.

Lemma sum_bounds_entry key v m :
  map_Forall (fun _ v => is_size_t (hits v) /\ is_size_t (misses v)) m ->
  m !! key = Some v ->
  hits v + misses v
  <= sum_accesses m.
Proof.
  intros Hall Hm. rewrite (sum_delete key v m Hm).
  assert (0 <= sum_accesses (delete key m)); [|lia].
  apply sum_nonneg. intros k w Hk. apply (Hall k w).
  apply lookup_delete_Some in Hk as [_ Hk]. exact Hk.
Qed.

(** ** One call at a time: the ledger invariant and the accounting *)

Lemma monitor_accounting key s :
  ledger_inv s ->
  ledger_inv (monitor key s) /\
  monitored_accesses (monitor key s) = monitored_accesses s.
Proof.
  intros ((Ha & Hh & Hall) & Hle & Hsum).
  assert (monitored_accesses (monitor key s) = monitored_accesses s) as E.
  { unfold monitored_accesses, monitor, emplace; simpl.
    destruct (_hit_map s !! key) eqn:Hk; [reflexivity|].
    rewrite sum_insert by exact Hk. simpl. lia. }
  split; [|exact E].
  split; [|split; [exact Hle | rewrite E; exact Hsum]].
  split; [exact Ha | split; [exact Hh|]].
  unfold monitor, emplace; simpl.
  destruct (_hit_map s !! key) eqn:Hk; [exact Hall|].
  apply map_Forall_insert; [exact Hk|]. split; [|exact Hall].
  simpl. unfold is_size_t. pose proof SIZE_MODULUS_pos. lia.
Qed.

Lemma unmonitor_accounting key s :
  ledger_inv s ->
  ledger_inv (unmonitor key s) /\
  monitored_accesses (unmonitor key s)
  = monitored_accesses s - dropped (Unmonitor key) s /\
  0 <= dropped (Unmonitor key) s.
Proof.
  intros ((Ha & Hh & Hall) & Hle & Hsum).
  assert (map_Forall (fun _ v => is_size_t (hits v) /\ is_size_t (misses v))
            (_hit_map (unmonitor key s))) as Hall'.
  { intros k w Hk. apply (Hall k w). unfold unmonitor, erase in Hk.
    simpl in Hk. apply lookup_delete_Some in Hk as [_ Hk]. exact Hk. }
  assert (monitored_accesses (unmonitor key s)
          = monitored_accesses s - dropped (Unmonitor key) s
          /\ 0 <= dropped (Unmonitor key) s) as [E Hd].
  { unfold monitored_accesses, unmonitor, erase, dropped; simpl.
    destruct (_hit_map s !! key) as [v|] eqn:Hk.
    - rewrite (sum_delete key v _ Hk).
      destruct (Hall key v Hk) as [[? ?] [? ?]]. lia.
    - rewrite delete_id by exact Hk. lia. }
  split; [|split; [exact E | exact Hd]].
  split; [split; [exact Ha | split; [exact Hh | exact Hall']]|].
  split; [exact Hle|]. rewrite E.
  change (total_accesses (unmonitor key s)) with (total_accesses s). lia.
Qed.

Lemma unmonitor_all_accounting s :
  ledger_inv s ->
  ledger_inv (unmonitor_all s) /\
  monitored_accesses (unmonitor_all s)
  = monitored_accesses s - dropped UnmonitorAll s /\
  0 <= dropped UnmonitorAll s.
Proof.
  intros ((Ha & Hh & Hall) & Hle & Hsum).
  assert (monitored_accesses (unmonitor_all s) = 0) as E.
  { unfold monitored_accesses, unmonitor_all, clear; simpl. apply sum_empty. }
  assert (0 <= monitored_accesses s) as Hpos by (apply sum_nonneg, Hall).
  split; [|split; [rewrite E; simpl; lia | exact Hpos]].
  split; [split; [exact Ha | split; [exact Hh|]]|].
  - unfold unmonitor_all, clear; simpl. apply map_Forall_empty.
  - split; [exact Hle|]. rewrite E. destruct Ha as [Ha _].
    unfold total_accesses, unmonitor_all; simpl. exact Ha.
Qed.

Lemma increment_in_range z bound :
  is_size_t z -> z <= bound -> bound + 1 < SIZE_MODULUS ->
  is_size_t (z + 1) /\ wrap (z + 1) = z + 1.
Proof.
  intros [? ?] ? ?. assert (is_size_t (z + 1)) by (unfold is_size_t; lia).
  split; [assumption | now apply wrap_id].
Qed.

Lemma register_hit_accounting key s :
  ledger_inv s -> total_accesses s + 1 < SIZE_MODULUS ->
  ledger_inv (register_hit key s) /\
  total_accesses (register_hit key s) = total_accesses s + 1 /\
  total_hits (register_hit key s) = total_hits s + 1 /\
  monitored_accesses (register_hit key s)
  = monitored_accesses s + 1 - dropped (RegisterHit key) s /\
  0 <= dropped (RegisterHit key) s.
Proof.
  intros ((Ha & Hh & Hall) & Hle & Hsum) Hroom.
  unfold total_accesses, total_hits, monitored_accesses in *.
  destruct (increment_in_range _ _ Ha (Z.le_refl _) Hroom) as [Ha' Ea].
  destruct (increment_in_range _ _ Hh Hle Hroom) as [Hh' Eh].
  unfold ledger_inv, counters_in_range, monitored_accesses, total_accesses,
    total_hits, register_hit, dropped, is_monitoring, count; simpl.
  rewrite Ea, Eh.
  destruct (_hit_map s !! key) as [v|] eqn:Hk; simpl.
  - destruct (Hall key v Hk) as [Hhv Hmv].
    pose proof (sum_bounds_entry key v _ Hall Hk) as Hv.
    assert (hits v <= _total_accesses s) as Hbound
      by (destruct Hmv; lia).
    destruct (increment_in_range _ _ Hhv Hbound Hroom) as [Hhv' Ev].
    rewrite Ev, (sum_update key v _ _ Hk); simpl.
    split; [split; [split; [exact Ha'|split; [exact Hh'|]]|]|].
    + apply map_Forall_insert_2; [|exact Hall]. simpl. now split.
    + lia.
    + lia.
  - split; [split; [split; [exact Ha'|split; [exact Hh'|exact Hall]]|]|]; lia.
Qed.

Lemma register_miss_accounting key s :
  ledger_inv s -> total_accesses s + 1 < SIZE_MODULUS ->
  ledger_inv (register_miss key s) /\
  total_accesses (register_miss key s) = total_accesses s + 1 /\
  total_hits (register_miss key s) = total_hits s /\
  monitored_accesses (register_miss key s)
  = monitored_accesses s + 1 - dropped (RegisterMiss key) s /\
  0 <= dropped (RegisterMiss key) s.
Proof.
  intros ((Ha & Hh & Hall) & Hle & Hsum) Hroom.
  unfold total_accesses, total_hits, monitored_accesses in *.
  destruct (increment_in_range _ _ Ha (Z.le_refl _) Hroom) as [Ha' Ea].
  unfold ledger_inv, counters_in_range, monitored_accesses, total_accesses,
    total_hits, register_miss, dropped, is_monitoring, count; simpl.
  rewrite Ea.
  destruct (_hit_map s !! key) as [v|] eqn:Hk; simpl.
  - destruct (Hall key v Hk) as [Hhv Hmv].
    pose proof (sum_bounds_entry key v _ Hall Hk) as Hv.
    assert (misses v <= _total_accesses s) as Hbound
      by (destruct Hhv; lia).
    destruct (increment_in_range _ _ Hmv Hbound Hroom) as [Hmv' Ev].
    rewrite Ev, (sum_update key v _ _ Hk); simpl.
    split; [split; [split; [exact Ha'|split; [exact Hh|]]|]|].
    + apply map_Forall_insert_2; [|exact Hall]. simpl. now split.
    + lia.
    + lia.
  - split; [split; [split; [exact Ha'|split; [exact Hh|exact Hall]]|]|]; lia.
Qed.

(** ** Histories *)

Local Ltac keep_inv Hinv := split; [exact Hinv | repeat split; lia].

Lemma run_cons c cs s : run (c :: cs) s = run cs (perform c s).
Proof. reflexivity. Qed.

Lemma run_snoc cs c s : run (cs ++ [c]) s = perform c (run cs s).
Proof. unfold run. now rewrite foldl_app. Qed.

Lemma events_cons c cs :
  events (c :: cs) = (if is_event c then 1 else 0) + events cs.
Proof.
  unfold events. rewrite filter_cons.
  destruct (is_event c); case_decide; try congruence; simpl length; lia.
Qed.

Lemma events_nonneg cs : 0 <= events cs.
Proof. unfold events. lia. Qed.

Lemma perform_accounting c s :
  ledger_inv s ->
  (is_event c = true -> total_accesses s + 1 < SIZE_MODULUS) ->
  ledger_inv (perform c s) /\
  total_accesses (perform c s)
  = total_accesses s + (if is_event c then 1 else 0) /\
  total_accesses (perform c s) - monitored_accesses (perform c s)
  = total_accesses s - monitored_accesses s + dropped c s /\
  0 <= dropped c s.
Proof.
  intros Hinv Hroom. destruct c as [key|key| |key|key]; simpl perform;
    simpl is_event in *.
  - destruct (monitor_accounting key s Hinv) as [Hinv' E].
    change (total_accesses (monitor key s)) with (total_accesses s).
    rewrite E. simpl. keep_inv Hinv'.
  - destruct (unmonitor_accounting key s Hinv) as (Hinv' & E & Hd).
    change (total_accesses (unmonitor key s)) with (total_accesses s).
    rewrite E. keep_inv Hinv'.
  - destruct (unmonitor_all_accounting s Hinv) as (Hinv' & E & Hd).
    change (total_accesses (unmonitor_all s)) with (total_accesses s).
    rewrite E. keep_inv Hinv'.
  - destruct (register_hit_accounting key s Hinv (Hroom eq_refl))
      as (Hinv' & Ea & _ & E & Hd).
    rewrite Ea, E. keep_inv Hinv'.
  - destruct (register_miss_accounting key s Hinv (Hroom eq_refl))
      as (Hinv' & Ea & _ & E & Hd).
    rewrite Ea, E. keep_inv Hinv'.
Qed.

Lemma run_accounting cs : forall s,
  ledger_inv s ->
  total_accesses s + events cs < SIZE_MODULUS ->
  ledger_inv (run cs s) /\
  total_accesses (run cs s) = total_accesses s + events cs /\
  total_accesses (run cs s) - monitored_accesses (run cs s)
  = total_accesses s - monitored_accesses s + total_dropped cs s /\
  0 <= total_dropped cs s.
Proof.
  induction cs as [|c cs IH]; intros s Hinv Hroom.
  - simpl. change (events []) with 0. keep_inv Hinv.
  - rewrite events_cons in Hroom |- *. pose proof (events_nonneg cs).
    destruct (perform_accounting c s Hinv) as (Hinv' & Ea & E & Hd).
    { intros E. rewrite E in Hroom. lia. }
    rewrite run_cons. simpl total_dropped.
    destruct (IH (perform c s) Hinv') as (Hinv'' & Ea' & E' & Hd').
    { rewrite Ea. lia. }
    keep_inv Hinv''.
Qed.

(** ** Construction *)

Lemma ledger_inv_default : ledger_inv (Statistics_default (Key := Key)).
Proof.
  pose proof SIZE_MODULUS_pos.
  unfold ledger_inv, counters_in_range, monitored_accesses, total_hits,
    total_accesses, Statistics_default; simpl.
  rewrite sum_empty. unfold is_size_t.
  split; [split; [lia | split; [lia | apply map_Forall_empty]] | lia].
Qed.

Lemma foldl_monitor_accounting keys : forall s,
  ledger_inv s ->
  ledger_inv (foldl (fun s key => monitor key s) s keys) /\
  total_accesses (foldl (fun s key => monitor key s) s keys)
  = total_accesses s /\
  total_hits (foldl (fun s key => monitor key s) s keys) = total_hits s /\
  monitored_accesses (foldl (fun s key => monitor key s) s keys)
  = monitored_accesses s.
Proof.
  induction keys as [|key keys IH]; intros s Hinv; simpl.
  - split; [exact Hinv | repeat split].
  - destruct (monitor_accounting key s Hinv) as [Hinv' E].
    destruct (IH (monitor key s) Hinv') as (Hinv'' & Ea & Eh & Em).
    rewrite Ea, Eh, Em, E. split; [exact Hinv'' | repeat split].
Qed.

Lemma Statistics_of_range_accounting keys :
  ledger_inv (Statistics_of_range keys) /\
  total_accesses (Statistics_of_range keys) = 0 /\
  total_hits (Statistics_of_range keys) = 0 /\
  monitored_accesses (Statistics_of_range keys) = 0.
Proof.
  destruct (foldl_monitor_accounting keys _ ledger_inv_default)
    as (Hinv & Ea & Eh & Em).
  unfold Statistics_of_range. rewrite Ea, Eh, Em.
  split; [exact Hinv | repeat split].
Qed.

(** The constructors are histories of [monitor] calls on a default ledger. *)
Lemma Statistics_of_range_run keys :
  Statistics_of_range keys = run (Monitor <$> keys) Statistics_default.
Proof.
  unfold Statistics_of_range, run.
  generalize (Statistics_default (Key := Key)).
  induction keys as [|key keys IH]; intros s; [reflexivity|]. apply IH.
Qed.

(** Recorded events keep the aggregate inequality as long as the
    [size_t] counters have not wrapped. *)
Lemma run_total_hits_le keys cs :
  events cs < SIZE_MODULUS ->
  total_hits (run cs (Statistics_of_range keys))
  <= total_accesses (run cs (Statistics_of_range keys)).
Proof.
  intros Hroom.
  destruct (Statistics_of_range_accounting keys) as (Hinv & Ea & _ & _).
  destruct (run_accounting cs _ Hinv) as ((_ & Hle & _) & _).
  - rewrite Ea. lia.
  - exact Hle.
Qed.

(** ** Per-key queries *)

(** C2.  A per-key query fails with [UnmonitoredKey] exactly when the key is
    not currently monitored.  When the key is monitored with counters [v],
    [stats_for] returns [v], [hits_for] its hits, [misses_for] its misses and
    [accesses_for] its hits plus misses: the sum as the [size_t] accessor
    computes it, which is the integer sum whenever that fits a [size_t]. *)
Theorem per_key_queries key s :
  (stats_for key s = Throw UnmonitoredKey <-> is_monitoring key s = false) /\
  (hits_for key s = Throw UnmonitoredKey <-> is_monitoring key s = false) /\
  (misses_for key s = Throw UnmonitoredKey <-> is_monitoring key s = false) /\
  (accesses_for key s = Throw UnmonitoredKey
   <-> is_monitoring key s = false) /\
  (is_monitoring key s = true -> exists v, _hit_map s !! key = Some v) /\
  (forall v, _hit_map s !! key = Some v ->
     is_monitoring key s = true /\
     stats_for key s = Return v /\
     hits_for key s = Return (hits v) /\
     misses_for key s = Return (misses v) /\
     accesses_for key s = Return (wrap (hits v + misses v)) /\
     (is_size_t (hits v + misses v) ->
      accesses_for key s = Return (hits v + misses v))).
Proof.
  unfold hits_for, misses_for, accesses_for, stats_for, is_monitoring, count,
    accesses.
  destruct (_hit_map s !! key) as [w|] eqn:Hk; simpl.
  - do 4 (split; [split; discriminate|]). split; [eauto|].
    intros v [= <-]. do 5 (split; [reflexivity|]).
    intros Hfit. now rewrite wrap_id.
  - do 4 (split; [split; reflexivity|]). split; discriminate.
Qed.

(** C10.  The class's subscript operator is [stats_for]: it returns the
    counters of a monitored key and fails with [UnmonitoredKey] otherwise.
    Being a [const] member it leaves the map as it is, whereas the map's own
    subscript operator would have entered an unmonitored key. *)
Theorem subscript_is_stats_for key s :
  subscript key s = stats_for key s /\
  (forall v, _hit_map s !! key = Some v -> subscript key s = Return v) /\
  (is_monitoring key s = false ->
   subscript key s = Throw UnmonitoredKey /\
   _hit_map s !! key = None /\
   (unordered_map_subscript key (_hit_map s)).2 !! key
   = Some KeyStatistics_default /\
   (unordered_map_subscript key (_hit_map s)).2 <> _hit_map s) /\
  (is_monitoring key s = true ->
   exists v, subscript key s = Return v /\
     unordered_map_subscript key (_hit_map s) = (v, _hit_map s)).
Proof.
  unfold subscript, unordered_map_subscript.
  split; [reflexivity|]. split; [|split].
  - intros v Hk. now apply stats_for_lookup.
  - intros Hno. apply not_monitoring_lookup in Hno.
    split; [now apply stats_for_throw|]. split; [exact Hno|].
    rewrite Hno; simpl. split; [apply lookup_insert_eq|].
    intros E. rewrite <- E, lookup_insert_eq in Hno. discriminate.
  - intros Hyes. apply is_monitoring_lookup in Hyes as [v Hk].
    exists v. rewrite Hk. split; [now apply stats_for_lookup | reflexivity].
Qed.

(** ** Aggregate queries *)

(** C6.  [total_misses] is a total function: it returns the [size_t]
    difference of [total_accesses] and [total_hits].  On a ledger whose
    aggregates obey the data-model invariant [total_hits <= total_accesses]
    that difference is the integer difference, so hits and misses add up to
    the accesses. *)
Theorem total_misses_is_difference s :
  total_misses s = (total_accesses s - total_hits s) mod SIZE_MODULUS /\
  is_size_t (total_misses s) /\
  (is_size_t (total_accesses s) -> is_size_t (total_hits s) ->
   total_hits s <= total_accesses s ->
   total_misses s = total_accesses s - total_hits s /\
   total_hits s + total_misses s = total_accesses s).
Proof.
  split; [reflexivity|]. split; [apply wrap_in_range|].
  intros Ha Hh Hle. unfold total_misses. rewrite wrap_sub_le by assumption.
  lia.
Qed.


(** ** Administration *)

(** C4.  [monitor] on a key that is already monitored leaves the whole
    ledger as it is (the counters of the key are kept, not reset); on a key
    that is not monitored it enters the key with hits and misses both zero.
    In both cases no other key and no aggregate changes. *)
Theorem monitor_keeps_or_adds key s :
  (is_monitoring key s = true -> monitor key s = s) /\
  (is_monitoring key s = false ->
   _hit_map (monitor key s) = <[key := KeyStatistics_default]> (_hit_map s) /\
   stats_for key (monitor key s) = Return {| hits := 0; misses := 0 |} /\
   hits_for key (monitor key s) = Return 0 /\
   misses_for key (monitor key s) = Return 0) /\
  is_monitoring key (monitor key s) = true /\
  (forall k, k <> key -> _hit_map (monitor key s) !! k = _hit_map s !! k) /\
  total_accesses (monitor key s) = total_accesses s /\
  total_hits (monitor key s) = total_hits s /\
  monitor key (monitor key s) = monitor key s.
Proof.
  assert (forall s', is_monitoring key s' = true -> monitor key s' = s')
    as Hkeep.
  { intros s' Hyes. apply is_monitoring_lookup in Hyes as [v Hk].
    apply Statistics_eq; try reflexivity.
    unfold monitor, emplace; simpl. now rewrite Hk. }
  assert (is_monitoring key (monitor key s) = true) as Hnow.
  { apply is_monitoring_lookup. unfold monitor; simpl.
    rewrite lookup_emplace_eq. eauto. }
  split; [apply Hkeep|]. split; [|split; [exact Hnow|split]].
  - intros Hno. apply not_monitoring_lookup in Hno.
    unfold hits_for, misses_for, stats_for, monitor, emplace; simpl.
    rewrite Hno, lookup_insert_eq. simpl. repeat split.
  - intros k Hne. unfold monitor; simpl. now apply lookup_emplace_ne.
  - repeat split. now apply Hkeep.
Qed.

(** C7.  [unmonitor] removes the key and throws its counters away: a
    following [stats_for] fails with [UnmonitoredKey], and monitoring the
    key again starts from zero counters.  On a key that is not monitored it
    changes nothing.  No other key's entry and no aggregate is changed. *)
Theorem unmonitor_discards key s :
  stats_for key (unmonitor key s) = Throw UnmonitoredKey /\
  is_monitoring key (unmonitor key s) = false /\
  stats_for key (monitor key (unmonitor key s))
  = Return {| hits := 0; misses := 0 |} /\
  (is_monitoring key s = false -> unmonitor key s = s) /\
  (forall k, k <> key ->
     _hit_map (unmonitor key s) !! k = _hit_map s !! k /\
     stats_for k (unmonitor key s) = stats_for k s /\
     is_monitoring k (unmonitor key s) = is_monitoring k s) /\
  total_accesses (unmonitor key s) = total_accesses s /\
  total_hits (unmonitor key s) = total_hits s.
Proof.
  assert (_hit_map (unmonitor key s) !! key = None) as Hgone
    by apply lookup_delete_eq.
  split; [now apply stats_for_throw|].
  split; [now apply not_monitoring_lookup|]. split; [|split; [|split]].
  - unfold stats_for, monitor, emplace; simpl.
    unfold unmonitor, erase in *; simpl in *.
    now rewrite Hgone, lookup_insert_eq.
  - intros Hno. apply not_monitoring_lookup in Hno.
    apply Statistics_eq; try reflexivity.
    unfold unmonitor, erase; simpl. now apply delete_id.
  - intros k Hne.
    assert (_hit_map (unmonitor key s) !! k = _hit_map s !! k) as E
      by (apply lookup_delete_ne; congruence).
    unfold stats_for, is_monitoring, count. now rewrite E.
  - split; reflexivity.
Qed.

(** C5.  After [unmonitor_all] no key is monitored, so every per-key query
    fails with [UnmonitoredKey], while [total_accesses] and [total_hits]
    read as before the call. *)
Theorem unmonitor_all_keeps_aggregates s :
  _hit_map (unmonitor_all s) = ∅ /\
  number_of_monitored_keys (unmonitor_all s) = 0 /\
  is_monitoring_keys (unmonitor_all s) = 0 /\
  (forall key,
     is_monitoring key (unmonitor_all s) = false /\
     stats_for key (unmonitor_all s) = Throw UnmonitoredKey /\
     hits_for key (unmonitor_all s) = Throw UnmonitoredKey /\
     misses_for key (unmonitor_all s) = Throw UnmonitoredKey /\
     accesses_for key (unmonitor_all s) = Throw UnmonitoredKey /\
     subscript key (unmonitor_all s) = Throw UnmonitoredKey) /\
  total_accesses (unmonitor_all s) = total_accesses s /\
  total_hits (unmonitor_all s) = total_hits s /\
  total_misses (unmonitor_all s) = total_misses s.
Proof.
  split; [reflexivity|]. split; [reflexivity|]. split; [reflexivity|].
  split; [|repeat split].
  intros key.
  unfold subscript, hits_for, misses_for, accesses_for, stats_for,
    is_monitoring, count, unmonitor_all, clear; simpl.
  rewrite lookup_empty. simpl. repeat split.
Qed.

(** A run of hits adds its length to both aggregates, modulo [2^64]. *)
Lemma run_replicate_register_hit key (n : nat) : forall s,
  is_size_t (_total_accesses s) -> is_size_t (_total_hits s) ->
  total_accesses (run (replicate n (RegisterHit key)) s)
  = wrap (total_accesses s + Z.of_nat n) /\
  total_hits (run (replicate n (RegisterHit key)) s)
  = wrap (total_hits s + Z.of_nat n).
Proof.
  induction n as [|n IH]; intros s Ha Hh.
  - change (run (replicate 0 (RegisterHit key)) s) with s.
    rewrite !Z.add_0_r. unfold total_accesses, total_hits.
    now rewrite !wrap_id.
  - change (run (replicate (S n) (RegisterHit key)) s)
      with (run (replicate n (RegisterHit key)) (register_hit key s)).
    destruct (IH (register_hit key s)) as [Ea Eh];
      [apply wrap_in_range..|].
    rewrite Ea, Eh, Nat2Z.inj_succ.
    unfold total_accesses, total_hits, register_hit, wrap; simpl.
    rewrite !Zplus_mod_idemp_l. split; f_equal; lia.
Qed.

Lemma total_hits_exceed_total_accesses key (n : nat) :
  Z.of_nat n = SIZE_MODULUS - 1 ->
  total_accesses
    (run (replicate n (RegisterHit key) ++ [RegisterMiss key])
       Statistics_default) = 0 /\
  total_hits
    (run (replicate n (RegisterHit key) ++ [RegisterMiss key])
       Statistics_default) = SIZE_MODULUS - 1.
Proof.
  intros Hn. pose proof SIZE_MODULUS_pos as Hpos.
  assert (is_size_t 0) as Hzero by (unfold is_size_t; lia).
  destruct (run_replicate_register_hit key n Statistics_default Hzero Hzero)
    as [Ea Eh].
  rewrite run_snoc.
  change (total_accesses (perform (RegisterMiss key) ?s))
    with (wrap (total_accesses s + 1)).
  change (total_hits (perform (RegisterMiss key) ?s)) with (total_hits s).
  rewrite Ea, Eh, Hn.
  change (total_accesses Statistics_default) with 0.
  change (total_hits Statistics_default) with 0.
  rewrite !Z.add_0_l. unfold wrap.
  rewrite Zplus_mod_idemp_l, Z.sub_add, Z_mod_same_full.
  split; [reflexivity|]. apply Z.mod_small. lia.
Qed.

(** C3 (as amended).  The aggregates of a ledger built by any constructor
    satisfy [total_hits <= total_accesses]; [monitor], [unmonitor] and
    [unmonitor_all] do not touch the aggregates and so keep the inequality
    from any ledger; the reads are pure functions of the ledger.  The
    inequality therefore holds in every state reachable through the public
    interface, and in every state reached from a constructor by any history
    of administration calls and recorded hits and misses with fewer than
    [2^64] recorded events.  (Past that the [size_t] aggregates wrap.) *)
Theorem aggregate_inequality :
  total_hits (Statistics_default (Key := Key))
  <= total_accesses (Statistics_default (Key := Key)) /\
  (forall keys,
     total_hits (Statistics_of_range keys)
     <= total_accesses (Statistics_of_range keys)) /\
  (forall s key,
     total_hits s <= total_accesses s ->
     total_hits (monitor key s) <= total_accesses (monitor key s) /\
     total_hits (unmonitor key s) <= total_accesses (unmonitor key s) /\
     total_hits (unmonitor_all s) <= total_accesses (unmonitor_all s)) /\
  (forall s, reachable s -> total_hits s <= total_accesses s) /\
  (forall keys cs,
     events cs < SIZE_MODULUS ->
     total_hits (run cs (Statistics_of_range keys))
     <= total_accesses (run cs (Statistics_of_range keys))).
Proof.
  assert (forall keys,
            total_hits (Statistics_of_range keys)
            <= total_accesses (Statistics_of_range keys)) as Hrange.
  { intros keys.
    destruct (Statistics_of_range_accounting keys) as (_ & -> & -> & _).
    lia. }
  split; [reflexivity|]. split; [exact Hrange|]. split; [|split].
  - intros s key Hle. repeat split; exact Hle.
  - intros s Hs. induction Hs as [|keys|key s _ IH|key s _ IH|s _ IH].
    + reflexivity.
    + apply Hrange.
    + exact IH.
    + exact IH.
    + exact IH.
  - intros keys cs. apply run_total_hits_le.
Qed.

(** ** Which keys are monitored *)

Lemma is_monitoring_perform key c s :
  is_monitoring key (perform c s)
  = if affects key c then starts_monitoring c else is_monitoring key s.
Proof.
  unfold is_monitoring, count.
  destruct c as [k|k| |k|k]; simpl.
  - case_bool_decide as Hk.
    + subst k. now rewrite lookup_emplace_eq.
    + now rewrite lookup_emplace_ne.
  - unfold erase. case_bool_decide as Hk.
    + subst k. now rewrite lookup_delete_eq.
    + now rewrite lookup_delete_ne.
  - unfold clear. now rewrite lookup_empty.
  - destruct (_hit_map s !! k) as [v|] eqn:Hk; [|reflexivity].
    destruct (decide (k = key)) as [->|Hne].
    + now rewrite lookup_insert_eq, Hk.
    + now rewrite lookup_insert_ne.
  - destruct (_hit_map s !! k) as [v|] eqn:Hk; [|reflexivity].
    destruct (decide (k = key)) as [->|Hne].
    + now rewrite lookup_insert_eq, Hk.
    + now rewrite lookup_insert_ne.
Qed.

Lemma is_monitoring_run key cs s :
  is_monitoring key (run cs s)
  = match most_recent_affecting key cs with
    | Some c => starts_monitoring c
    | None => is_monitoring key s
    end.
Proof.
  unfold most_recent_affecting.
  induction cs as [|c cs IH] using rev_ind; [reflexivity|].
  rewrite run_snoc, is_monitoring_perform, filter_app, filter_cons, filter_nil.
  destruct (affects key c) eqn:Hc; case_decide; try congruence.
  - now rewrite last_snoc.
  - now rewrite app_nil_r.
Qed.

Lemma number_of_monitored_keys_counts s (l : list Key) :
  NoDup l ->
  (forall k, is_monitoring k s = true -> k ∈ l) ->
  number_of_monitored_keys s
  = Z.of_nat (length (filter (fun k => is_monitoring k s = true) l)).
Proof.
  intros Hnodup Hall. unfold number_of_monitored_keys. f_equal.
  rewrite <- (size_dom (D := gset Key)).
  change (size (dom (_hit_map s)))
    with (length (elements (dom (_hit_map s) : gset Key))).
  apply Permutation_length, NoDup_Permutation.
  - apply NoDup_elements.
  - now apply NoDup_filter.
  - intros k. rewrite elem_of_elements, elem_of_dom, list_elem_of_filter.
    rewrite <- is_monitoring_lookup. split; [|tauto].
    intros Hk. split; [exact Hk | now apply Hall].
Qed.

Lemma is_monitoring_keys_exists s :
  is_monitoring_keys s <> 0 <-> exists k, is_monitoring k s = true.
Proof.
  unfold is_monitoring_keys, empty. case_bool_decide as Hsize; simpl.
  - split; [congruence|]. intros [k Hk].
    apply is_monitoring_lookup in Hk as [v Hk].
    apply map_size_empty_iff in Hsize. rewrite Hsize, lookup_empty in Hk.
    discriminate.
  - split; [|discriminate]. intros _.
    apply map_size_ne_0_lookup in Hsize as [k Hk].
    exists k. now apply is_monitoring_lookup.
Qed.

(** C8.  After any history of calls, from any ledger, [is_monitoring(k)] is
    decided by the most recent call that affects [k]: true if that call was
    [monitor], false if it ended monitoring, and as it was before the
    history when no call affected [k] (false for a ledger just
    default-constructed).  [number_of_monitored_keys] is the number of keys
    for which [is_monitoring] is true, and [is_monitoring_keys] is nonzero
    exactly when there is such a key.  All three are total functions. *)
Theorem monitoring_queries cs s :
  (forall key,
     is_monitoring key (run cs s)
     = match most_recent_affecting key cs with
       | Some c => starts_monitoring c
       | None => is_monitoring key s
       end) /\
  (forall key,
     is_monitoring key (run cs Statistics_default)
     = match most_recent_affecting key cs with
       | Some c => starts_monitoring c
       | None => false
       end) /\
  (forall l : list Key,
     NoDup l ->
     (forall k, is_monitoring k (run cs s) = true -> k ∈ l) ->
     number_of_monitored_keys (run cs s)
     = Z.of_nat
         (length (filter (fun k => is_monitoring k (run cs s) = true) l))) /\
  (is_monitoring_keys (run cs s) = 1 \/ is_monitoring_keys (run cs s) = 0) /\
  (is_monitoring_keys (run cs s) <> 0
   <-> exists k, is_monitoring k (run cs s) = true).
Proof.
  split; [intros key; apply is_monitoring_run|].
  split; [intros key; apply is_monitoring_run|].
  split; [intros l; apply number_of_monitored_keys_counts|].
  split; [|apply is_monitoring_keys_exists].
  unfold is_monitoring_keys. destruct (negb _); [now left | now right].
Qed.

(** ** Aggregates against per-key counters *)

(** C1 (as amended).  In a ledger built by a constructor and then taken
    through any history with fewer than [2^64] recorded events,
    [total_accesses] is the number of recorded events and equals the sum
    over the monitored keys of hits plus misses PLUS the accesses dropped
    along the way (events on keys that were not monitored at the time, and
    counters thrown away by [unmonitor] and [unmonitor_all]).  So
    [total_accesses] is at least the per-key sum, and equal to it exactly
    when nothing was dropped. *)
Theorem total_accesses_accounting keys cs :
  events cs < SIZE_MODULUS ->
  total_accesses (run cs (Statistics_of_range keys)) = events cs /\
  total_accesses (run cs (Statistics_of_range keys))
  = monitored_accesses (run cs (Statistics_of_range keys))
    + total_dropped cs (Statistics_of_range keys) /\
  0 <= total_dropped cs (Statistics_of_range keys) /\
  monitored_accesses (run cs (Statistics_of_range keys))
  <= total_accesses (run cs (Statistics_of_range keys)) /\
  (total_accesses (run cs (Statistics_of_range keys))
   = monitored_accesses (run cs (Statistics_of_range keys))
   <-> total_dropped cs (Statistics_of_range keys) = 0).
Proof.
  intros Hroom.
  destruct (Statistics_of_range_accounting keys) as (Hinv & Ea & _ & Em).
  destruct (run_accounting cs _ Hinv) as (_ & Ea' & E & Hd).
  { rewrite Ea. lia. }
  rewrite Ea, Em in *. repeat split; lia.
Qed.

Lemma is_monitoring_foldl_monitor key keys : forall s,
  key ∈ keys \/ is_monitoring key s = true ->
  is_monitoring key (foldl (fun s k => monitor k s) s keys) = true.
Proof.
  induction keys as [|k keys IH]; intros s Hk; simpl.
  - destruct Hk as [Hk|Hk]; [|exact Hk]. now apply elem_of_nil in Hk.
  - apply IH. destruct Hk as [Hk|Hk].
    + apply elem_of_cons in Hk as [->|Hk]; [right|now left].
      change (monitor k s) with (perform (Monitor k) s).
      rewrite is_monitoring_perform. simpl.
      now rewrite bool_decide_eq_true_2.
    + right. change (monitor k s) with (perform (Monitor k) s).
      rewrite is_monitoring_perform. simpl. now case_bool_decide.
Qed.

Lemma total_dropped_continuously_monitored keys cs : forall s,
  (forall k, k ∈ keys -> is_monitoring k s = true) ->
  forallb (keeps_detail keys) cs = true ->
  total_dropped cs s = 0.
Proof.
  induction cs as [|c cs IH]; intros s Hmon Hcs; [reflexivity|].
  simpl in Hcs. apply andb_prop in Hcs as [Hc Hcs]. simpl total_dropped.
  rewrite IH; [|intros k Hk|exact Hcs].
  - destruct c as [k|k| |k|k]; simpl in *; try discriminate;
      [reflexivity|..]; apply bool_decide_eq_true_1 in Hc;
      now rewrite (Hmon k Hc).
  - rewrite is_monitoring_perform.
    destruct c as [k'|k'| |k'|k']; simpl in *; try discriminate.
    + case_bool_decide; [reflexivity | now apply Hmon].
    + now apply Hmon.
    + now apply Hmon.
Qed.

(** The equality between the aggregate and the per-key sum, for keys that
    are monitored from construction on and never unmonitored. *)
Corollary total_accesses_continuously_monitored keys cs :
  events cs < SIZE_MODULUS ->
  forallb (keeps_detail keys) cs = true ->
  total_accesses (run cs (Statistics_of_range keys))
  = monitored_accesses (run cs (Statistics_of_range keys)).
Proof.
  intros Hroom Hcs.
  destruct (Statistics_of_range_accounting keys) as (Hinv & Ea & _ & Em).
  destruct (run_accounting cs _ Hinv) as (_ & _ & E & _).
  { rewrite Ea. lia. }
  rewrite (total_dropped_continuously_monitored keys cs) in E;
    [rewrite Ea, Em in E; lia| |exact Hcs].
  intros k Hk. apply is_monitoring_foldl_monitor. now left.
Qed.

End Properties.

(** * The scenario of the specification

    A ledger constructed with the monitored keys "a" and "b", on which the
    cache records hit("a"), miss("a"), hit("b") and miss("c"). *)

Example scenario_totals :
  total_accesses scenario = 4 /\ total_hits scenario = 2 /\
  total_misses scenario = 2.
Proof. vm_compute. repeat split. Qed.

Example scenario_per_key :
  accesses_for "a"%string scenario = Return 2 /\
  hits_for "a"%string scenario = Return 1 /\
  accesses_for "b"%string scenario = Return 1 /\
  stats_for "c"%string scenario = Throw UnmonitoredKey.
Proof. vm_compute. repeat split. Qed.

Example scenario_unmonitor_all :
  stats_for "a"%string (unmonitor_all scenario) = Throw UnmonitoredKey /\
  total_accesses (unmonitor_all scenario) = 4.
Proof. vm_compute. repeat split. Qed.

Example scenario_monitor_twice :
  hits_for "a"%string (monitor "a"%string (monitor "a"%string scenario))
  = Return 1.
Proof. vm_compute. reflexivity. Qed.

(** C1, as first stated, fails on the scenario: the miss on the unmonitored
    key "c" counts in the aggregate but in no per-key counter, so
    [total_accesses] reads 4 while the monitored keys account for 3. *)
Lemma total_accesses_exceeds_monitored :
  total_accesses (run scenario_calls (Statistics_of_range ["a"; "b"]%string))
  = 4 /\
  monitored_accesses
    (run scenario_calls (Statistics_of_range ["a"; "b"]%string)) = 3 /\
  total_accesses (run scenario_calls (Statistics_of_range ["a"; "b"]%string))
  <> monitored_accesses
       (run scenario_calls (Statistics_of_range ["a"; "b"]%string)).
Proof.
  split; [vm_compute; reflexivity|]. split; [vm_compute; reflexivity|].
  vm_compute. discriminate.
Qed.

Lemma total_accesses_accounting_witness :
  events scenario_calls < SIZE_MODULUS /\
  total_accesses scenario
  = monitored_accesses scenario + total_dropped scenario_calls scenario_start.
Proof.
  split; [vm_compute; reflexivity|].
  destruct (total_accesses_accounting ["a"; "b"]%string scenario_calls)
    as (_ & Hsum & _); [vm_compute; reflexivity|].
  exact Hsum.
Defined.

Lemma per_key_queries_witness :
  _hit_map scenario !! "a"%string = Some {| hits := 1; misses := 1 |} /\
  is_size_t (1 + 1) /\
  accesses_for "a"%string scenario = Return (1 + 1).
Proof.
  assert (is_size_t (1 + 1)) as Hfit
    by (vm_compute; split; [discriminate | reflexivity]).
  split; [vm_compute; reflexivity|]. split; [exact Hfit|].
  destruct (per_key_queries "a"%string scenario) as (_ & _ & _ & _ & _ & Hv).
  destruct (Hv {| hits := 1; misses := 1 |}) as (_ & _ & _ & _ & _ & Hacc).
  - vm_compute; reflexivity.
  - apply Hacc, Hfit.
Defined.

Lemma aggregate_inequality_witness :
  events scenario_calls < SIZE_MODULUS /\
  total_hits scenario <= total_accesses scenario /\
  total_hits (monitor "c"%string scenario)
  <= total_accesses (monitor "c"%string scenario).
Proof.
  assert (events scenario_calls < SIZE_MODULUS) as Hroom
    by (vm_compute; reflexivity).
  destruct (aggregate_inequality (Key := string))
    as (_ & _ & Hkeep & _ & Hrun).
  assert (total_hits scenario <= total_accesses scenario) as Hle
    by (apply (Hrun ["a"; "b"]%string scenario_calls Hroom)).
  split; [exact Hroom|]. split; [exact Hle|].
  apply (Hkeep scenario "c"%string Hle).
Defined.

(** C3, as first stated, fails once the aggregates wrap: after [2^64 - 1]
    recorded hits both aggregates read [2^64 - 1]; one more recorded miss
    takes [total_accesses] round to 0 while [total_hits] stays. *)
Lemma total_hits_exceed_total_accesses_after_wrap :
  total_accesses (run wrapping_calls Statistics_default) = 0 /\
  total_hits (run wrapping_calls Statistics_default) = SIZE_MODULUS - 1 /\
  ~ (total_hits (run wrapping_calls Statistics_default)
     <= total_accesses (run wrapping_calls Statistics_default)).
Proof.
  pose proof SIZE_MODULUS_pos as Hpos.
  assert (1 < SIZE_MODULUS) as Hbig by reflexivity.
  destruct (total_hits_exceed_total_accesses "a"%string
              (Z.to_nat (SIZE_MODULUS - 1))) as [Ea Eh].
  { apply Z2Nat.id. lia. }
  unfold wrapping_calls. rewrite Ea, Eh.
  split; [reflexivity|]. split; [reflexivity|]. lia.
Qed.

Lemma monitor_keeps_or_adds_witness :
  is_monitoring "a"%string scenario = true /\
  monitor "a"%string scenario = scenario.
Proof.
  split; [vm_compute; reflexivity|].
  destruct (monitor_keeps_or_adds "a"%string scenario) as (Hkeep & _).
  apply Hkeep. vm_compute; reflexivity.
Defined.

Lemma total_misses_is_difference_witness :
  (is_size_t (total_accesses scenario) /\ is_size_t (total_hits scenario) /\
   total_hits scenario <= total_accesses scenario) /\
  total_misses scenario = total_accesses scenario - total_hits scenario.
Proof.
  assert (is_size_t (total_accesses scenario)) as Ha
    by (vm_compute; split; [discriminate | reflexivity]).
  assert (is_size_t (total_hits scenario)) as Hh
    by (vm_compute; split; [discriminate | reflexivity]).
  assert (total_hits scenario <= total_accesses scenario) as Hle
    by (vm_compute; discriminate).
  split; [now repeat split|].
  destruct (total_misses_is_difference scenario) as (_ & _ & Hdiff).
  apply (Hdiff Ha Hh Hle).
Defined.

Lemma unmonitor_discards_witness :
  is_monitoring "c"%string scenario = false /\
  unmonitor "c"%string scenario = scenario.
Proof.
  split; [vm_compute; reflexivity|].
  destruct (unmonitor_discards "c"%string scenario)
    as (_ & _ & _ & Hnoop & _).
  apply Hnoop. vm_compute; reflexivity.
Defined.

Lemma monitoring_queries_witness :
  (NoDup ["a"; "b"; "c"]%string /\
   forall k, is_monitoring k (run [Unmonitor "b"%string] scenario) = true ->
             k ∈ ["a"; "b"; "c"]%string) /\
  number_of_monitored_keys (run [Unmonitor "b"%string] scenario)
  = Z.of_nat
      (length
         (filter
            (fun k =>
               is_monitoring k (run [Unmonitor "b"%string] scenario) = true)
            ["a"; "b"; "c"]%string)).
Proof.
  assert (NoDup ["a"; "b"; "c"]%string) as Hnodup
    by (apply (bool_decide_unpack (NoDup ["a"; "b"; "c"]%string));
        vm_compute; exact I).
  assert (forall k,
            is_monitoring k (run [Unmonitor "b"%string] scenario) = true ->
            k ∈ ["a"; "b"; "c"]%string) as Hall.
  { assert (_hit_map (run [Unmonitor "b"%string] scenario)
            = {[ "a"%string := {| hits := 1; misses := 1 |} ]}) as E
      by (vm_compute; reflexivity).
    intros k Hk. apply is_monitoring_lookup in Hk as [v Hk].
    rewrite E in Hk. apply lookup_singleton_Some in Hk as [<- _].
    apply list_elem_of_here. }
  split; [now split|].
  destruct (monitoring_queries [Unmonitor "b"%string] scenario)
    as (_ & _ & Hcount & _).
  apply (Hcount _ Hnodup Hall).
Defined.

Lemma subscript_is_stats_for_witness :
  is_monitoring "c"%string scenario = false /\
  subscript "c"%string scenario = Throw UnmonitoredKey.
Proof.
  split; [vm_compute; reflexivity|].
  destruct (subscript_is_stats_for "c"%string scenario)
    as (_ & _ & Hthrow & _).
  apply Hthrow. vm_compute; reflexivity.
Defined.

(** The rates of the scenario (2 hits in 4 accesses) are both 0.5; one hit
    in three accesses gives the [double]s nearest to 1/3 and 2/3. *)
Example scenario_rates :
  hit_rate scenario = SpecFloat.S754_finite false 4503599627370496 (-53) /\
  miss_rate scenario = SpecFloat.S754_finite false 4503599627370496 (-53).
Proof. vm_compute. split; reflexivity. Qed.

Example one_hit_in_three :
  hit_rate (run [RegisterHit "a"; RegisterMiss "a"; RegisterMiss "a"]%string
              scenario_start)
  = SpecFloat.S754_finite false 6004799503160661 (-54) /\
  miss_rate (run [RegisterHit "a"; RegisterMiss "a"; RegisterMiss "a"]%string
               scenario_start)
  = SpecFloat.S754_finite false 6004799503160662 (-53).
Proof. vm_compute. split; reflexivity. Qed.


(** * Construction and administration, composed *)

Section Administration.
Context {Key : Type} `{Countable Key}.
Implicit Types (s : Statistics Key) (key k : Key) (v : KeyStatistics).
Implicit Types (keys l : list Key).

(** ** Lists of keys *)

Lemma filter_all (P : Key -> Prop) `{forall k, Decision (P k)} l :
  (forall k, k ∈ l -> P k) -> filter P l = l.
Proof.
  induction l as [|k l IH]; intros Hall; [reflexivity|].
  rewrite filter_cons_True by apply Hall, list_elem_of_here.
  f_equal. apply IH. intros k' Hk'. now apply Hall, list_elem_of_further.
Qed.

Lemma remove_dups_length_le l : (length (remove_dups l) <= length l)%nat.
Proof.
  induction l as [|k l IH]; simpl; [lia|].
  destruct (decide_rel elem_of k l); simpl; lia.
Qed.

Lemma remove_dups_NoDup l : NoDup l -> remove_dups l = l.
Proof.
  induction 1 as [|k l Hk _ IH]; simpl; [reflexivity|].
  destruct (decide_rel elem_of k l); [contradiction|]. now rewrite IH.
Qed.

(** ** What a run of [monitor] calls does to the map *)

Lemma foldl_monitor_lookup keys : forall s key,
  _hit_map (foldl (fun s k => monitor k s) s keys) !! key
  = match _hit_map s !! key with
    | Some v => Some v
    | None =>
        if bool_decide (key ∈ keys) then Some KeyStatistics_default else None
    end.
Proof.
  induction keys as [|k keys IH]; intros s key.
  - simpl foldl. destruct (_hit_map s !! key); [reflexivity|].
    now rewrite bool_decide_eq_false_2 by apply not_elem_of_nil.
  - simpl foldl. rewrite IH. unfold monitor; simpl _hit_map.
    destruct (decide (k = key)) as [->|Hne].
    + rewrite lookup_emplace_eq.
      destruct (_hit_map s !! key); simpl; [reflexivity|].
      rewrite bool_decide_eq_true_2; [reflexivity | apply list_elem_of_here].
    + rewrite lookup_emplace_ne by exact Hne.
      destruct (_hit_map s !! key); [reflexivity|].
      apply (f_equal (fun b : bool =>
                        if b then Some KeyStatistics_default else None)).
      apply bool_decide_ext. rewrite elem_of_cons. intuition congruence.
Qed.

Lemma foldl_monitor_aggregates keys : forall s,
  _total_accesses (foldl (fun s k => monitor k s) s keys) = _total_accesses s
  /\ _total_hits (foldl (fun s k => monitor k s) s keys) = _total_hits s.
Proof.
  induction keys as [|k keys IH]; intros s; simpl; [now split|].
  destruct (IH (monitor k s)) as [-> ->]. now split.
Qed.

Lemma Statistics_of_range_lookup keys key :
  _hit_map (Statistics_of_range keys) !! key
  = if bool_decide (key ∈ keys) then Some KeyStatistics_default else None.
Proof.
  unfold Statistics_of_range. rewrite foldl_monitor_lookup. simpl.
  now rewrite lookup_empty.
Qed.

Lemma Statistics_of_range_aggregates keys :
  _total_accesses (Statistics_of_range keys) = 0
  /\ _total_hits (Statistics_of_range keys) = 0.
Proof. apply (foldl_monitor_aggregates keys Statistics_default). Qed.

Lemma Statistics_of_range_ext keys l :
  (forall k, k ∈ keys <-> k ∈ l) ->
  Statistics_of_range keys = Statistics_of_range l.
Proof.
  intros Hsame.
  destruct (Statistics_of_range_aggregates keys) as [Ea Eh].
  destruct (Statistics_of_range_aggregates l) as [Ea' Eh'].
  apply Statistics_eq; [congruence..|].
  apply map_eq. intros k. rewrite !Statistics_of_range_lookup.
  now rewrite (bool_decide_ext _ _ (Hsame k)).
Qed.

(** X1.  A ledger constructed from a list of keys monitors exactly the
    listed keys, each with zero counters: a per-key query returns zero
    counters for a listed key and fails with [UnmonitoredKey] for any other,
    and all aggregates read zero. *)
Theorem constructor_monitors_listed_keys keys key :
  stats_for key (Statistics_of_range keys)
  = (if bool_decide (key ∈ keys)
     then Return {| hits := 0; misses := 0 |}
     else Throw UnmonitoredKey) /\
  is_monitoring key (Statistics_of_range keys) = bool_decide (key ∈ keys) /\
  total_accesses (Statistics_of_range keys) = 0 /\
  total_hits (Statistics_of_range keys) = 0 /\
  total_misses (Statistics_of_range keys) = 0.
Proof.
  destruct (Statistics_of_range_aggregates keys) as [Ea Eh].
  unfold stats_for, is_monitoring, count, total_misses, total_accesses,
    total_hits.
  rewrite Statistics_of_range_lookup, Ea, Eh.
  destruct (bool_decide (key ∈ keys)); repeat split.
Qed.

(** X2.  Constructing from two lists gives the same ledger exactly when the
    lists hold the same keys: the order of the keys and repeated keys make
    no difference. *)
Theorem constructor_ignores_order_and_duplicates keys l :
  Statistics_of_range keys = Statistics_of_range l
  <-> (forall k, k ∈ keys <-> k ∈ l).
Proof.
  split; [|apply Statistics_of_range_ext].
  intros E k.
  pose proof (Statistics_of_range_lookup keys k) as Hk.
  rewrite E, Statistics_of_range_lookup in Hk.
  do 2 case_bool_decide; try discriminate; tauto.
Qed.

(** X3.  A constructed ledger monitors as many keys as the list has
    distinct keys: never more than the length of the list, and exactly the
    length when no key is repeated. *)
Theorem constructor_counts_distinct_keys keys :
  number_of_monitored_keys (Statistics_of_range keys)
  = Z.of_nat (length (remove_dups keys)) /\
  number_of_monitored_keys (Statistics_of_range keys)
  <= Z.of_nat (length keys) /\
  (NoDup keys ->
   number_of_monitored_keys (Statistics_of_range keys)
   = Z.of_nat (length keys)).
Proof.
  assert (number_of_monitored_keys (Statistics_of_range keys)
          = Z.of_nat (length (remove_dups keys))) as E.
  { rewrite (number_of_monitored_keys_counts _ (remove_dups keys)).
    - f_equal. f_equal. apply filter_all.
      intros k Hk. apply is_monitoring_lookup.
      rewrite Statistics_of_range_lookup, bool_decide_eq_true_2; [eauto|].
      now apply elem_of_remove_dups.
    - apply NoDup_remove_dups.
    - intros k Hk. apply is_monitoring_lookup in Hk as [v Hk].
      rewrite Statistics_of_range_lookup in Hk.
      case_bool_decide; [|discriminate]. now apply elem_of_remove_dups. }
  split; [exact E|]. split.
  - rewrite E. pose proof (remove_dups_length_le keys) as Hle. lia.
  - intros Hnodup. rewrite E. now rewrite (remove_dups_NoDup keys).
Qed.

(** ** One administration call after another *)

Lemma lookup_monitor key k s :
  _hit_map (monitor key s) !! k
  = if bool_decide (key = k)
    then Some (default KeyStatistics_default (_hit_map s !! k))
    else _hit_map s !! k.
Proof.
  unfold monitor; simpl. case_bool_decide as Hk.
  - subst k. apply lookup_emplace_eq.
  - now apply lookup_emplace_ne.
Qed.

Lemma lookup_unmonitor key k s :
  _hit_map (unmonitor key s) !! k
  = if bool_decide (key = k) then None else _hit_map s !! k.
Proof.
  unfold unmonitor, erase; simpl. case_bool_decide as Hk.
  - subst k. apply lookup_delete_eq.
  - now apply lookup_delete_ne.
Qed.

Local Ltac same_ledger k :=
  apply Statistics_eq; [reflexivity..|]; apply map_eq; intros k;
  rewrite ?lookup_monitor, ?lookup_unmonitor, ?lookup_monitor,
    ?lookup_unmonitor.

(** X4.  Round trips of [monitor] and [unmonitor] on one key.  Monitoring
    a key and unmonitoring it again gives back the original ledger when the
    key was not monitored before (and in any case the ledger without the
    key).  The other way round, unmonitoring and monitoring again leaves the
    key with zero counters, which is the original ledger only if the key
    was monitored with zero counters. *)
Theorem monitor_unmonitor_round_trips key s :
  unmonitor key (monitor key s) = unmonitor key s /\
  (is_monitoring key s = false -> unmonitor key (monitor key s) = s) /\
  _hit_map (monitor key (unmonitor key s))
  = <[key := {| hits := 0; misses := 0 |}]> (_hit_map s) /\
  (monitor key (unmonitor key s) = s
   <-> stats_for key s = Return {| hits := 0; misses := 0 |}).
Proof.
  assert (unmonitor key (monitor key s) = unmonitor key s) as Hdrop.
  { same_ledger k. now case_bool_decide. }
  assert (_hit_map (monitor key (unmonitor key s))
          = <[key := KeyStatistics_default]> (_hit_map s)) as Hreset.
  { apply map_eq. intros k. rewrite lookup_monitor, lookup_unmonitor.
    case_bool_decide as Hk.
    - subst k. now rewrite lookup_insert_eq.
    - now rewrite lookup_insert_ne. }
  split; [exact Hdrop|]. split; [|split; [exact Hreset|split]].
  - intros Hno. rewrite Hdrop. apply not_monitoring_lookup in Hno.
    apply Statistics_eq; [reflexivity..|].
    unfold unmonitor, erase; simpl. now apply delete_id.
  - intros E. apply stats_for_lookup.
    rewrite <- E at 1. rewrite Hreset. apply lookup_insert_eq.
  - intros Hzero. apply stats_for_lookup in Hzero.
    apply Statistics_eq; [reflexivity..|].
    rewrite Hreset. now apply insert_id.
Qed.

(** X5.  Administration calls on different keys can be reordered freely:
    two [monitor] calls commute, two [unmonitor] calls commute, and a
    [monitor] commutes with an [unmonitor] of another key.  On the same key
    the order matters: the key ends up monitored one way and unmonitored the
    other. *)
Theorem administration_commutes k1 k2 s :
  monitor k1 (monitor k2 s) = monitor k2 (monitor k1 s) /\
  unmonitor k1 (unmonitor k2 s) = unmonitor k2 (unmonitor k1 s) /\
  (k1 <> k2 -> monitor k1 (unmonitor k2 s) = unmonitor k2 (monitor k1 s)) /\
  monitor k1 (unmonitor k1 s) <> unmonitor k1 (monitor k1 s).
Proof.
  split; [|split; [|split]].
  - same_ledger k. repeat case_bool_decide; try reflexivity;
      now destruct (_hit_map s !! k).
  - same_ledger k. now repeat case_bool_decide.
  - intros Hne. same_ledger k. repeat case_bool_decide; congruence.
  - intros E. apply (f_equal (fun s' => _hit_map s' !! k1)) in E.
    rewrite lookup_monitor, !lookup_unmonitor in E.
    rewrite !bool_decide_eq_true_2 in E by reflexivity. discriminate.
Qed.

Lemma run_unmonitor_lookup l : forall s key,
  _hit_map (run (Unmonitor <$> l) s) !! key
  = if bool_decide (key ∈ l) then None else _hit_map s !! key.
Proof.
  induction l as [|k l IH]; intros s key.
  - now rewrite bool_decide_eq_false_2 by apply not_elem_of_nil.
  - rewrite fmap_cons, run_cons, IH. simpl perform.
    rewrite lookup_unmonitor.
    destruct (decide (k = key)) as [->|Hne].
    + rewrite (bool_decide_eq_true_2 (key ∈ key :: l))
        by apply list_elem_of_here.
      rewrite (bool_decide_eq_true_2 (key = key)) by reflexivity.
      now case_bool_decide.
    + rewrite (bool_decide_eq_false_2 (k = key)) by exact Hne.
      apply (f_equal (fun b : bool => if b then None else _hit_map s !! key)).
      apply bool_decide_ext. rewrite elem_of_cons. intuition congruence.
Qed.

Lemma run_unmonitor_aggregates l : forall s,
  _total_accesses (run (Unmonitor <$> l) s) = _total_accesses s /\
  _total_hits (run (Unmonitor <$> l) s) = _total_hits s.
Proof.
  induction l as [|k l IH]; intros s; [now split|].
  rewrite fmap_cons, run_cons. destruct (IH (perform (Unmonitor k) s))
    as [-> ->]. now split.
Qed.

(** X6.  [unmonitor_all] does what unmonitoring every key one by one does:
    running [unmonitor] over any list that holds all monitored keys (in any
    order, with or without other keys) gives the same ledger. *)
Theorem unmonitor_all_is_unmonitor_each l s :
  (forall k, is_monitoring k s = true -> k ∈ l) ->
  run (Unmonitor <$> l) s = unmonitor_all s.
Proof.
  intros Hall. destruct (run_unmonitor_aggregates l s) as [Ea Eh].
  apply Statistics_eq; [exact Ea | exact Eh|].
  apply map_eq. intros k. rewrite run_unmonitor_lookup.
  unfold unmonitor_all, clear; simpl. rewrite lookup_empty.
  case_bool_decide as Hk; [reflexivity|].
  apply not_monitoring_lookup.
  destruct (is_monitoring k s) eqn:Hm; [|reflexivity].
  now contradiction Hk; apply Hall.
Qed.

(** X7.  [monitor] raises [number_of_monitored_keys] by one when the key
    was not monitored and leaves it alone otherwise; [unmonitor] lowers it
    by one when the key was monitored and leaves it alone otherwise. *)
Theorem number_of_monitored_keys_step key s :
  number_of_monitored_keys (monitor key s)
  = number_of_monitored_keys s + (if is_monitoring key s then 0 else 1) /\
  number_of_monitored_keys (unmonitor key s)
  = number_of_monitored_keys s - (if is_monitoring key s then 1 else 0) /\
  0 <= number_of_monitored_keys s.
Proof.
  unfold number_of_monitored_keys, is_monitoring, count, monitor, unmonitor,
    emplace, erase; simpl.
  destruct (_hit_map s !! key) as [v|] eqn:Hk; simpl.
  - rewrite map_size_delete_Some by eauto.
    assert (size (_hit_map s) <> 0%nat); [|lia].
    apply map_size_non_empty_iff. intros E.
    rewrite E, lookup_empty in Hk. discriminate.
  - rewrite map_size_insert_None, map_size_delete_None by exact Hk. lia.
Qed.

(** X8.  The ways of seeing that nothing is monitored agree:
    [number_of_monitored_keys] is zero, [is_monitoring_keys] is zero, every
    per-key query fails with [UnmonitoredKey], and [unmonitor_all] would
    change nothing.  Conversely one monitored key makes
    [is_monitoring_keys] one and the number at least one. *)
Theorem nothing_monitored s :
  (number_of_monitored_keys s = 0 <-> is_monitoring_keys s = 0) /\
  (is_monitoring_keys s = 0
   <-> forall key, stats_for key s = Throw UnmonitoredKey) /\
  (is_monitoring_keys s = 0 <-> unmonitor_all s = s) /\
  (forall key, is_monitoring key s = true ->
     is_monitoring_keys s = 1 /\ 1 <= number_of_monitored_keys s).
Proof.
  assert (is_monitoring_keys s = 0 <-> _hit_map s = ∅) as Hempty.
  { unfold is_monitoring_keys, empty. rewrite <- map_size_empty_iff.
    case_bool_decide; simpl; split; congruence. }
  assert (number_of_monitored_keys s = 0 <-> _hit_map s = ∅) as Hsize.
  { unfold number_of_monitored_keys. rewrite <- map_size_empty_iff. lia. }
  split; [now rewrite Hempty, Hsize|]. split; [|split].
  - rewrite Hempty, map_empty. split; intros E key.
    + now apply stats_for_throw.
    + now apply stats_for_throw.
  - rewrite Hempty. split; intros E.
    + apply Statistics_eq; [reflexivity..|]. now rewrite E.
    + now rewrite <- E.
  - intros key Hk. apply is_monitoring_lookup in Hk as [v Hk].
    assert (_hit_map s <> ∅) as Hne.
    { intros E. rewrite E, lookup_empty in Hk. discriminate. }
    split.
    + unfold is_monitoring_keys, empty.
      rewrite bool_decide_eq_false_2; [reflexivity|].
      now apply map_size_non_empty_iff.
    + apply map_size_non_empty_iff in Hne.
      unfold number_of_monitored_keys. lia.
Qed.

(** X9.  No sequence of further [monitor] calls resets or changes the
    counters of a key that is already monitored, and the aggregates stay
    as they are. *)
Theorem monitor_never_resets keys key v s :
  stats_for key s = Return v ->
  stats_for key (foldl (fun s k => monitor k s) s keys) = Return v /\
  hits_for key (foldl (fun s k => monitor k s) s keys) = Return (hits v) /\
  misses_for key (foldl (fun s k => monitor k s) s keys)
  = Return (misses v) /\
  total_accesses (foldl (fun s k => monitor k s) s keys) = total_accesses s /\
  total_hits (foldl (fun s k => monitor k s) s keys) = total_hits s.
Proof.
  intros Hv. apply stats_for_lookup in Hv.
  destruct (foldl_monitor_aggregates keys s) as [Ea Eh].
  unfold hits_for, misses_for, stats_for, total_accesses, total_hits.
  rewrite foldl_monitor_lookup, Hv, Ea, Eh. repeat split.
Qed.

(** ** The states the public interface can reach *)

Lemma reachable_constructed s :
  reachable s -> exists keys, s = Statistics_of_range keys.
Proof.
  induction 1 as [|keys|key s _ [keys ->]|key s _ [keys ->]|s _ [keys ->]].
  - now exists [].
  - now exists keys.
  - exists (keys ++ [key]). unfold Statistics_of_range.
    now rewrite foldl_app.
  - exists (filter (fun k => k <> key) keys).
    destruct (Statistics_of_range_aggregates keys) as [Ea Eh].
    destruct (Statistics_of_range_aggregates
                (filter (fun k => k <> key) keys)) as [Ea' Eh'].
    apply Statistics_eq; [simpl; congruence..|].
    apply map_eq. intros k.
    rewrite lookup_unmonitor, !Statistics_of_range_lookup.
    case_bool_decide as Hk.
    + subst k. rewrite bool_decide_eq_false_2; [reflexivity|].
      rewrite list_elem_of_filter. tauto.
    + apply (f_equal (fun b : bool =>
                        if b then Some KeyStatistics_default else None)).
      apply bool_decide_ext. rewrite list_elem_of_filter.
      intuition congruence.
  - exists []. destruct (Statistics_of_range_aggregates keys) as [Ea Eh].
    apply Statistics_eq; [exact Ea | exact Eh | reflexivity].
Qed.

(** X10.  The public interface never records anything: in every state it
    can reach (any constructor, then any [monitor], [unmonitor] and
    [unmonitor_all] calls) the three aggregates read zero and every
    monitored key has zero hits and zero misses. *)
Theorem public_interface_never_records s :
  reachable s ->
  total_accesses s = 0 /\ total_hits s = 0 /\ total_misses s = 0 /\
  (forall key v, stats_for key s = Return v ->
     v = {| hits := 0; misses := 0 |}) /\
  (forall key,
     hits_for key s = Throw UnmonitoredKey \/
     hits_for key s = Return 0 /\ misses_for key s = Return 0 /\
     accesses_for key s = Return 0).
Proof.
  intros [keys ->]%reachable_constructed.
  destruct (Statistics_of_range_aggregates keys) as [Ea Eh].
  unfold total_misses, total_accesses, total_hits.
  rewrite Ea, Eh. do 3 (split; [reflexivity|]). split.
  - intros key v Hv. apply stats_for_lookup in Hv.
    rewrite Statistics_of_range_lookup in Hv.
    case_bool_decide; [injection Hv as <-; reflexivity | discriminate].
  - intros key. unfold hits_for, misses_for, accesses_for, stats_for.
    rewrite Statistics_of_range_lookup.
    case_bool_decide; [right; repeat split | left; reflexivity].
Qed.

(** X11.  The constructors already reach every state of the public
    interface: a ledger is reachable exactly when it is the ledger
    constructed from some duplicate-free list of keys. *)
Theorem reachable_iff_constructed s :
  reachable s <-> exists keys, NoDup keys /\ s = Statistics_of_range keys.
Proof.
  split.
  - intros [keys ->]%reachable_constructed. exists (remove_dups keys).
    split; [apply NoDup_remove_dups|].
    apply Statistics_of_range_ext. intros k.
    now rewrite elem_of_remove_dups.
  - intros (keys & _ & ->). apply reachable_range.
Qed.

End Administration.

(** ** The same, on ledgers over string keys *)

Lemma constructor_ignores_order_and_duplicates_witness :
  (forall k : string,
     k ∈ ["a"; "b"]%string <-> k ∈ ["b"; "a"; "a"]%string) /\
  Statistics_of_range ["a"; "b"]%string
  = Statistics_of_range ["b"; "a"; "a"]%string.
Proof.
  assert (forall k : string,
            k ∈ ["a"; "b"]%string <-> k ∈ ["b"; "a"; "a"]%string) as Hsame.
  { intros k. rewrite !elem_of_cons. tauto. }
  split; [exact Hsame|].
  apply (constructor_ignores_order_and_duplicates
           ["a"; "b"]%string ["b"; "a"; "a"]%string), Hsame.
Defined.

Lemma constructor_counts_distinct_keys_witness :
  NoDup ["a"; "b"]%string /\
  number_of_monitored_keys (Statistics_of_range ["a"; "b"]%string)
  = Z.of_nat (length ["a"; "b"]%string).
Proof.
  assert (NoDup ["a"; "b"]%string) as Hnodup
    by (apply (bool_decide_unpack (NoDup ["a"; "b"]%string));
        vm_compute; exact I).
  split; [exact Hnodup|].
  destruct (constructor_counts_distinct_keys ["a"; "b"]%string)
    as (_ & _ & Hcount).
  apply Hcount, Hnodup.
Defined.

Lemma monitor_unmonitor_round_trips_witness :
  is_monitoring "c"%string scenario = false /\
  unmonitor "c"%string (monitor "c"%string scenario) = scenario.
Proof.
  split; [vm_compute; reflexivity|].
  destruct (monitor_unmonitor_round_trips "c"%string scenario)
    as (_ & Hback & _).
  apply Hback. vm_compute; reflexivity.
Defined.

Lemma administration_commutes_witness :
  "a"%string <> "c"%string /\
  monitor "a"%string (unmonitor "c"%string scenario)
  = unmonitor "c"%string (monitor "a"%string scenario).
Proof.
  assert ("a"%string <> "c"%string) as Hne by discriminate.
  split; [exact Hne|].
  destruct (administration_commutes "a"%string "c"%string scenario)
    as (_ & _ & Hswap & _).
  apply Hswap, Hne.
Defined.

Lemma unmonitor_all_is_unmonitor_each_witness :
  (forall k, is_monitoring k scenario = true -> k ∈ ["b"; "a"]%string) /\
  run (Unmonitor <$> ["b"; "a"]%string) scenario = unmonitor_all scenario.
Proof.
  assert (forall k, is_monitoring k scenario = true ->
                    k ∈ ["b"; "a"]%string) as Hall.
  { assert (_hit_map scenario
            = <["a"%string := {| hits := 1; misses := 1 |}]>
                {[ "b"%string := {| hits := 1; misses := 0 |} ]}) as E
      by (vm_compute; reflexivity).
    intros k Hk. apply is_monitoring_lookup in Hk as [v Hk].
    rewrite E in Hk. rewrite !elem_of_cons.
    apply lookup_insert_Some in Hk as [[<- _]|[_ Hk]]; [tauto|].
    apply lookup_singleton_Some in Hk as [<- _]. tauto. }
  split; [exact Hall|].
  apply (unmonitor_all_is_unmonitor_each ["b"; "a"]%string scenario), Hall.
Defined.

Lemma nothing_monitored_witness :
  is_monitoring "a"%string scenario = true /\
  is_monitoring_keys scenario = 1 /\
  1 <= number_of_monitored_keys scenario.
Proof.
  split; [vm_compute; reflexivity|].
  destruct (nothing_monitored scenario) as (_ & _ & _ & Hsome).
  apply (Hsome "a"%string). vm_compute; reflexivity.
Defined.

Lemma monitor_never_resets_witness :
  stats_for "a"%string scenario = Return {| hits := 1; misses := 1 |} /\
  stats_for "a"%string
    (foldl (fun s k => monitor k s) scenario ["a"; "c"; "a"]%string)
  = Return {| hits := 1; misses := 1 |}.
Proof.
  assert (stats_for "a"%string scenario
          = Return {| hits := 1; misses := 1 |}) as Hv
    by (vm_compute; reflexivity).
  split; [exact Hv|].
  destruct (monitor_never_resets ["a"; "c"; "a"]%string "a"%string
              {| hits := 1; misses := 1 |} scenario Hv) as (Hkept & _).
  exact Hkept.
Defined.

Lemma public_interface_never_records_witness :
  reachable (unmonitor "a"%string (monitor "c"%string scenario_start)) /\
  total_misses (unmonitor "a"%string (monitor "c"%string scenario_start)) = 0.
Proof.
  assert (reachable
            (unmonitor "a"%string (monitor "c"%string scenario_start)))
    as Hreach
    by (apply reachable_unmonitor, reachable_monitor, reachable_range).
  split; [exact Hreach|].
  destruct (public_interface_never_records _ Hreach) as (_ & _ & Hmiss & _).
  exact Hmiss.
Defined.

Lemma reachable_iff_constructed_witness :
  reachable (unmonitor "a"%string (monitor "c"%string scenario_start)) /\
  exists keys,
    NoDup keys /\
    unmonitor "a"%string (monitor "c"%string scenario_start)
    = Statistics_of_range keys.
Proof.
  assert (reachable
            (unmonitor "a"%string (monitor "c"%string scenario_start)))
    as Hreach
    by (apply reachable_unmonitor, reachable_monitor, reachable_range).
  split; [exact Hreach|].
  apply (reachable_iff_constructed
           (unmonitor "a"%string (monitor "c"%string scenario_start))),
    Hreach.
Defined.
